(** * Connector lifecycle supervisor of zato.server.connection.connector

    A shallow embedding of [Connector] and [ConnectorStore] from
    [zato/server/connection/connector/__init__.py], together with the
    properties of the reconnect loop, of [send], [stop], [edit] and of the
    registry operations.

    Conventions of the embedding.
    - A method is a computation in a state-and-exception monad; the state of a
      method of [Connector] is the object itself, the world its subclass hooks
      act on, and the trace of observable events (log lines, pauses, hook
      invocations, spawned tasks).
    - The three kinds of Python exception the source distinguishes are kept
      apart: instances of [Exception], [KeyboardInterrupt], and the other
      direct children of [BaseException].
    - Loops that the source leaves unbounded take a fuel argument; running out
      of it is an outcome of its own, never confused with a return or a raise.
    - The registry maps names to object references and the objects live in a
      heap, so that "the same instance" means "the same reference". *)

From Stdlib Require Import ZArith Lia Bool Arith List.
From stdpp Require Import gmap strings list fin_maps.
Import ListNotations.

Local Open Scope string_scope.
Local Open Scope list_scope.

(** ** Exceptions, log records, events *)

(** The exception classes that occur in the module or can come out of a
    subclass hook. *)
Inductive exc : Type :=
| Inactive (message : string)            (* class Inactive(Exception) *)
| KeyError (key : string)                (* dict lookup of an absent key *)
| NotImplementedError (message : string)
| TypeError (message : string)
| AttributeError (message : string)
| OtherException (cls : string)          (* any other subclass of Exception *)
| KeyboardInterrupt
| OtherBaseException (cls : string).     (* SystemExit, GeneratorExit, GreenletExit *)

(** [isinstance(e, Exception)], what [except Exception, e] tests. *)
Definition is_Exception (e : exc) : bool :=
  match e with
  | KeyboardInterrupt | OtherBaseException _ => false
  | _ => true
  end.

Definition is_KeyboardInterrupt (e : exc) : bool :=
  match e with
  | KeyboardInterrupt => true
  | _ => false
  end.

Inductive level : Type := DEBUG | INFO | WARN.

(** The log calls of the module, with the arguments of their format string.
    The elapsed time of the "Could not connect" line is read from the wall
    clock, which is outside the model. *)
Inductive log_line : Type :=
| Traceback (e : exc)
    (* format_exc(e) *)
| CouldNotConnect (details name : string) (attempts : nat)
    (* 'Could not connect to %s (%s) after %s attempts, time spent so far: %s' *)
| StartStopDebug (verb type name : string)
    (* '%s %s connector `%s`' *)
| StartStopInfo (verb type name suffix : string).
    (* '%s %s connector `%s`%s' *)

Definition msg := string.

Inductive hook : Type :=
| H_start
| H_stop
| H_send (m : msg)
| H_invoke (args : list string).

Inductive event : Type :=
| EvLog (lv : level) (line : log_line)   (* logger.debug / info / warn *)
| EvSleep (seconds : nat)                (* gevent.sleep *)
| EvCall (h : hook)                      (* a subclass hook is entered *)
| EvSpawn.                               (* the connect loop is handed to a new greenlet *)

Definition is_warn (ev : event) : bool :=
  match ev with
  | EvLog WARN _ => true
  | _ => false
  end.

Definition is_connect_call (ev : event) : bool :=
  match ev with
  | EvCall H_start => true
  | _ => false
  end.

Definition is_send_call (ev : event) : bool :=
  match ev with
  | EvCall (H_send _) => true
  | _ => false
  end.

Definition count (p : event -> bool) (tr : list event) : nat :=
  length (List.filter p tr).

Definition warn_count : list event -> nat := count is_warn.
Definition connect_count : list event -> nat := count is_connect_call.

(** The pauses of a trace, in order. *)
Definition pause_of (ev : event) : option nat :=
  match ev with
  | EvSleep n => Some n
  | _ => None
  end.

Definition pauses (tr : list event) : list nat := omap pause_of tr.

(** ** The monad of methods *)

Inductive abort : Type :=
| NoFuel       (* the loop was cut before the source would have left it *)
| Dangling.    (* a reference without an object: no Python state has one *)

Inductive outcome (A : Type) : Type :=
| Ret (a : A)
| Raise (e : exc)
| Abort (why : abort).

Arguments Ret {A} a.
Arguments Raise {A} e.
Arguments Abort {A} why.

Definition M (S A : Type) : Type := S -> outcome A * S.

Definition ret {S A} (a : A) : M S A := fun s => (Ret a, s).
Definition raise {S A} (e : exc) : M S A := fun s => (Raise e, s).
Definition abort_with {S A} (why : abort) : M S A := fun s => (Abort why, s).

Definition bind {S A B} (m : M S A) (k : A -> M S B) : M S B :=
  fun s =>
    match m s with
    | (Ret a, s') => k a s'
    | (Raise e, s') => (Raise e, s')
    | (Abort why, s') => (Abort why, s')
    end.

Definition gets {S A} (f : S -> A) : M S A := fun s => (Ret (f s), s).
Definition modify {S} (f : S -> S) : M S unit := fun s => (Ret tt, f s).

Declare Scope method_scope.
Delimit Scope method_scope with method.

Notation "x <- m ;; k" := (bind m (fun x => k))
  (at level 100, m at next level, k at level 200, right associativity) : method_scope.
Notation "m ;; k" := (bind m (fun _ => k))
  (at level 100, k at level 200, right associativity) : method_scope.

Local Open Scope method_scope.

(** [try: body except <sel>, e: handler]: the handler runs for the raised
    exceptions the clause selects, the others go on. *)
Definition try_except {S A} (body : M S A) (sel : exc -> bool)
    (handler : exc -> M S A) : M S A :=
  fun s =>
    match body s with
    | (Raise e, s') => if sel e then handler e s' else (Raise e, s')
    | r => r
    end.

(** [with mgr: body] for a context manager whose [__exit__] returns [None]:
    the exit runs after a return and after a raise, and a raise of the body
    goes on after it. *)
Definition with_ {S A} (enter exit_ : M S unit) (body : M S A) : M S A :=
  fun s =>
    match enter s with
    | (Ret _, s1) =>
        match body s1 with
        | (Ret a, s2) =>
            match exit_ s2 with
            | (Ret _, s3) => (Ret a, s3)
            | (Raise e, s3) => (Raise e, s3)
            | (Abort why, s3) => (Abort why, s3)
            end
        | (Raise e, s2) =>
            match exit_ s2 with
            | (Ret _, s3) => (Raise e, s3)
            | (Raise e', s3) => (Raise e', s3)
            | (Abort why, s3) => (Abort why, s3)
            end
        | (Abort why, s2) => (Abort why, s2)
        end
    | (Raise e, s1) => (Raise e, s1)
    | (Abort why, s1) => (Abort why, s1)
    end.

(** ** EventLogger *)

Module EventLogger.

(** The context manager of the module: two verbs and the two functions that
    log them. [__exit__] returns [None], so [with_] above is its [with]. *)
Record t (S : Type) : Type := mk {
  enter_verb : string;
  exit_verb : string;
  enter_func : string -> M S unit;
  exit_func : string -> M S unit
}.

Arguments mk {S} enter_verb exit_verb enter_func exit_func.
Arguments enter_verb {S} _.
Arguments exit_verb {S} _.
Arguments enter_func {S} _.
Arguments exit_func {S} _.

Definition __enter__ {S} (self : t S) : M S unit := enter_func self (enter_verb self).

Definition __exit__ {S} (self : t S) : M S unit := exit_func self (exit_verb self).

End EventLogger.

(** ** Strings *)

(** [needle in haystack] on Python strings. *)
Fixpoint contains (needle haystack : string) : bool :=
  String.prefix needle haystack ||
  match haystack with
  | EmptyString => false
  | String _ rest => contains needle rest
  end.

(** ** ConnectorConfig *)

Module Config.

(** The attributes of the config bunch the module reads or writes.
    [service_name] is read with [config.get], so it may be missing. *)
Record t : Type := mk {
  id : Z;
  name : string;
  is_active : bool;
  address : string;
  service_name : option string;
  prev_address : option string
}.

Definition set_prev_address (a : string) (c : t) : t :=
  mk (id c) (name c) (is_active c) (address c) (service_name c) (Some a).

End Config.

(** ** Connector *)

Module Connector.

Definition callback := string.
Definition handle := nat.

(** The attributes [__init__] sets. [lock] is the [RLock]: the depth at
    which the running caller holds it. *)
Record t : Type := mk {
  name : string;
  type : string;
  config : Config.t;
  on_message_callback : option callback;
  auth_func : option callback;
  service : option string;
  id : Z;
  is_active : bool;
  is_inactive : bool;
  is_connected : bool;
  keep_connecting : bool;
  keep_running : bool;
  lock : nat;
  conn : option handle
}.

Definition set_name (v : string) (c : t) : t :=
  mk v (type c) (config c) (on_message_callback c) (auth_func c) (service c)
     (id c) (is_active c) (is_inactive c) (is_connected c) (keep_connecting c)
     (keep_running c) (lock c) (conn c).

Definition set_config (v : Config.t) (c : t) : t :=
  mk (name c) (type c) v (on_message_callback c) (auth_func c) (service c)
     (id c) (is_active c) (is_inactive c) (is_connected c) (keep_connecting c)
     (keep_running c) (lock c) (conn c).

Definition set_is_connected (v : bool) (c : t) : t :=
  mk (name c) (type c) (config c) (on_message_callback c) (auth_func c) (service c)
     (id c) (is_active c) (is_inactive c) v (keep_connecting c)
     (keep_running c) (lock c) (conn c).

Definition set_keep_connecting (v : bool) (c : t) : t :=
  mk (name c) (type c) (config c) (on_message_callback c) (auth_func c) (service c)
     (id c) (is_active c) (is_inactive c) (is_connected c) v
     (keep_running c) (lock c) (conn c).

Definition set_keep_running (v : bool) (c : t) : t :=
  mk (name c) (type c) (config c) (on_message_callback c) (auth_func c) (service c)
     (id c) (is_active c) (is_inactive c) (is_connected c) (keep_connecting c)
     v (lock c) (conn c).

Definition set_lock (v : nat) (c : t) : t :=
  mk (name c) (type c) (config c) (on_message_callback c) (auth_func c) (service c)
     (id c) (is_active c) (is_inactive c) (is_connected c) (keep_connecting c)
     (keep_running c) v (conn c).

(** What a hook leaves behind: the exception it raised, if any, the object
    and the world as it left them. *)
Definition hook_result (W : Type) : Type := (option exc * t * W)%type.

(** The extension points of the class: the attribute and the methods a
    subclass provides or may override. [invoke] is the entry point
    [ConnectorStore.invoke] forwards to; the value it returns is the
    protocol's own and is not kept. *)
Class Subclass (W : Type) : Type := {
  start_in_greenlet : bool;
  get_log_details : t -> W -> string;
  get_prev_log_details : t -> W -> string;
  _start : t -> W -> hook_result W;
  _send : msg -> t -> W -> hook_result W;
  _stop : t -> W -> hook_result W;
  invoke : list string -> t -> W -> hook_result W
}.

(** [Connector] itself, with nothing overridden. [send] passes [msg] to a
    [_send] that takes none, and [invoke] is not defined at all. *)
Definition Base (W : Type) : Subclass W := {|
  start_in_greenlet := false;
  get_log_details := fun _ _ => "";
  get_prev_log_details := fun _ _ => "";
  _start := fun c w =>
    (Some (NotImplementedError "Must be implemented in subclasses"), c, w);
  _send := fun _ c w =>
    (Some (TypeError "_send() takes exactly 1 argument (2 given)"), c, w);
  _stop := fun c w => (None, c, w);
  invoke := fun _ c w =>
    (Some (AttributeError "'Connector' object has no attribute 'invoke'"), c, w)
|}.

Record state (W : Type) : Type := mkstate {
  self : t;
  world : W;
  trace : list event
}.

Arguments mkstate {W} self world trace.
Arguments self {W} s.
Arguments world {W} s.
Arguments trace {W} s.

Definition __init__ (name type : string) (config : Config.t)
    (on_message_callback auth_func : option callback) : t :=
  {| name := name;
     type := type;
     config := config;
     on_message_callback := on_message_callback;
     auth_func := auth_func;
     service := Config.service_name config;
     id := Config.id config;
     is_active := Config.is_active config;
     is_inactive := negb (Config.is_active config);
     is_connected := false;
     keep_connecting := true;
     keep_running := false;
     lock := 0;
     conn := None |}.

Section Methods.

Context {W : Type} {cls : Subclass W}.

Abbreviation Me := (M (state W)).

Definition emit (ev : event) : Me unit :=
  modify (fun s => mkstate (self s) (world s) (trace s ++ [ev])).

Definition log (lv : level) (line : log_line) : Me unit := emit (EvLog lv line).
Definition sleep (seconds : nat) : Me unit := emit (EvSleep seconds).

Definition update (f : t -> t) : Me unit :=
  modify (fun s => mkstate (f (self s)) (world s) (trace s)).

(** Entering a hook: the hook acts on the object and on the world and
    returns or raises. *)
Definition call (h : hook) (f : t -> W -> hook_result W) : Me unit :=
  emit (EvCall h) ;;
  fun s =>
    let '(r, c, w) := f (self s) (world s) in
    let s' := mkstate c w (trace s) in
    match r with
    | None => (Ret tt, s')
    | Some e => (Raise e, s')
    end.

(** [with self.lock]. *)
Definition with_lock {A} (body : Me A) : Me A :=
  with_ (update (fun c => set_lock (S (lock c)) c))
        (update (fun c => set_lock (pred (lock c)) c))
        body.

Definition _start_loop_inner_body (attempts : nat) : Me nat :=
  let log_each := 10 in
  try_except (call H_start _start) is_Exception
    (fun e => log WARN (Traceback e) ;; sleep 2) ;;
  let attempts := attempts + 1 in
  (if Nat.eqb (attempts mod log_each) 0
   then
     details <- gets (fun s => get_log_details (self s) (world s)) ;;
     name <- gets (fun s => name (self s)) ;;
     log WARN (CouldNotConnect details name attempts)
   else ret tt) ;;
  ret attempts.

(** [while not self.is_connected: ...] *)
Fixpoint _start_loop_inner (fuel attempts : nat) : Me nat :=
  match fuel with
  | 0 => abort_with NoFuel
  | S fuel =>
      connected <- gets (fun s => is_connected (self s)) ;;
      if connected then ret attempts
      else
        attempts <- _start_loop_inner_body attempts ;;
        _start_loop_inner fuel attempts
  end.

(** [while self.keep_connecting: ...] *)
Fixpoint _start_loop_outer (fuel attempts : nat) : Me unit :=
  match fuel with
  | 0 => abort_with NoFuel
  | S fuel =>
      go <- gets (fun s => keep_connecting (self s)) ;;
      if go then
        attempts <- _start_loop_inner fuel attempts ;;
        update (set_keep_connecting false) ;;
        _start_loop_outer fuel attempts
      else ret tt
  end.

Definition _start_loop (fuel : nat) : Me unit :=
  let attempts := 0 in
  try_except (_start_loop_outer fuel attempts) is_KeyboardInterrupt
    (fun _ => update (set_keep_connecting false)).

Definition send (m : msg) : Me unit :=
  with_lock (
    inactive <- gets (fun s => is_inactive (self s)) ;;
    if inactive then
      c <- gets self ;;
      raise (Inactive ("Connection `" +:+ name c +:+ "` is inactive (" +:+ type c +:+ ")"))
    else call (H_send m) (_send m)).

Definition _debug_start_stop (verb : string) : Me unit :=
  c <- gets self ;;
  log DEBUG (StartStopDebug verb (type c) (name c)).

Definition _info_start_stop (verb : string) : Me unit :=
  s <- gets (fun s => s) ;;
  let c := self s in
  let log_details :=
    if contains "Stop" verb then get_prev_log_details c (world s)
    else get_log_details c (world s) in
  log INFO (StartStopInfo verb (type c) (name c)
              (if String.eqb log_details "" then ""
               else " (" +:+ log_details +:+ ")")).

Definition _start_stop_logger (enter_verb exit_verb : string)
  : EventLogger.t (state W) :=
  EventLogger.mk enter_verb exit_verb _debug_start_stop _info_start_stop.

(** [with self._start_stop_logger(enter_verb, exit_verb)]. *)
Definition with_start_stop_logger {A} (enter_verb exit_verb : string)
    (body : Me A) : Me A :=
  let logger := _start_stop_logger enter_verb exit_verb in
  with_ (EventLogger.__enter__ logger) (EventLogger.__exit__ logger) body.

(** [spawn(self._start_loop).get()]: the loop runs in a greenlet of its own
    and its result, or what it raised, is the result of the call. *)
Definition _spawn_start (fuel : nat) : Me unit := _start_loop fuel.

(** Modelled from the spec: [spawn_greenlet] of [zato.common.util], which
    is not part of this module. "The connect loop is dispatched onto a new
    concurrent task and this call returns without waiting for connection
    success": the dispatch is an event, the task runs apart from the caller,
    and the caller goes on. *)
Definition spawn_greenlet (task : Me unit) : Me unit := emit EvSpawn.

Definition start (fuel : nat) : Me unit :=
  with_start_stop_logger "Starting" " Started" (
    update (set_keep_running true) ;;
    try_except
      (if start_in_greenlet then spawn_greenlet (_spawn_start fuel)
       else _start_loop fuel)
      is_Exception
      (fun e => log WARN (Traceback e))).

Definition stop : Me unit :=
  with_start_stop_logger "Stopping" " Stopped" (
    update (set_keep_connecting false) ;;
    update (set_keep_running false) ;;
    call H_stop _stop).

Definition restart (fuel : nat) : Me unit :=
  stop ;;
  start fuel.

Definition _edit (old_name : string) (config : Config.t) : Me unit :=
  update (set_name (Config.name config)) ;;
  update (set_config config).

(** [config.prev_address = self.config.address] writes into the object the
    caller passed; that object becomes [self.config], which is where the
    write is visible afterwards. *)
Definition edit (fuel : nat) (old_name : string) (cfg : Config.t) : Me unit :=
  with_lock (
    c <- gets self ;;
    let cfg := Config.set_prev_address (Config.address (config c)) cfg in
    _edit old_name cfg ;;
    restart fuel).

End Methods.

End Connector.

(** ** ConnectorStore *)

Module ConnectorStore.

(** A reference to a [Connector] object. *)
Definition ref := nat.

(** The attributes of the store. [connector_class] is the [Subclass]
    instance the methods below are parameterised by. *)
Record t : Type := mk {
  type : string;
  connectors : gmap string ref;
  lock : nat
}.

Definition set_connectors (v : gmap string ref) (st : t) : t :=
  mk (type st) v (lock st).

Definition set_lock (v : nat) (st : t) : t :=
  mk (type st) (connectors st) v.

Record state (W : Type) : Type := mkstate {
  self : t;
  heap : gmap ref Connector.t;
  world : W;
  trace : list event
}.

Arguments mkstate {W} self heap world trace.
Arguments self {W} s.
Arguments heap {W} s.
Arguments world {W} s.
Arguments trace {W} s.

Definition __init__ (type : string) : t :=
  {| type := type; connectors := ∅; lock := 0 |}.

Section Methods.

Context {W : Type} {cls : Connector.Subclass W}.

Abbreviation Ms := (M (state W)).

Definition update (f : t -> t) : Ms unit :=
  modify (fun s => mkstate (f (self s)) (heap s) (world s) (trace s)).

(** [with self.lock]. *)
Definition with_lock {A} (body : Ms A) : Ms A :=
  with_ (update (fun st => set_lock (S (lock st)) st))
        (update (fun st => set_lock (pred (lock st)) st))
        body.

(** [self.connectors[name]] *)
Definition getitem (name : string) : Ms ref :=
  fun s =>
    match connectors (self s) !! name with
    | Some r => (Ret r, s)
    | None => (Raise (KeyError name), s)
    end.

(** [self.connectors[name] = r] *)
Definition setitem (name : string) (r : ref) : Ms unit :=
  update (fun st => set_connectors (<[name := r]> (connectors st)) st).

(** [self.connectors.pop(name)] *)
Definition pop (name : string) : Ms ref :=
  r <- getitem name ;;
  update (fun st => set_connectors (delete name (connectors st)) st) ;;
  ret r.

(** [del self.connectors[name]] *)
Definition delitem (name : string) : Ms unit :=
  pop name ;;
  ret tt.

(** A method of the object behind [r], run on that object. *)
Definition on_object {A} (r : ref) (m : M (Connector.state W) A) : Ms A :=
  fun s =>
    match heap s !! r with
    | None => (Abort Dangling, s)
    | Some c =>
        let '(res, cs) := m (Connector.mkstate c (world s) (trace s)) in
        (res, mkstate (self s) (<[r := Connector.self cs]> (heap s))
                      (Connector.world cs) (Connector.trace cs))
    end.

(** A newly constructed object gets a reference no object has. *)
Definition new (c : Connector.t) : Ms ref :=
  fun s =>
    let r := fresh (dom (heap s)) in
    (Ret r, mkstate (self s) (<[r := c]> (heap s)) (world s) (trace s)).

Definition create (name : string) (config : Config.t)
    (on_message_callback auth_func : option Connector.callback) : Ms unit :=
  with_lock (
    type <- gets (fun s => type (self s)) ;;
    r <- new (Connector.__init__ name type config on_message_callback auth_func) ;;
    setitem name r).

Definition edit (fuel : nat) (old_name : string) (config : Config.t) : Ms unit :=
  with_lock (
    r <- getitem old_name ;;
    on_object r (Connector.edit fuel old_name config) ;;
    r <- pop old_name ;;
    setitem (Config.name config) r).

Definition delete (name : string) : Ms unit :=
  with_lock (
    r <- getitem name ;;
    on_object r Connector.stop ;;
    delitem name).

(** [for c in self.connectors.values()], in the order the map lists its
    entries. [name] is [None] or a string; [if name] is false for both
    [None] and the empty string. *)
Fixpoint start_each (fuel : nat) (name : option string) (rs : list ref) : Ms unit :=
  match rs with
  | [] => ret tt
  | r :: rs =>
      skip <- on_object r (gets (fun cs =>
                match name with
                | Some n => negb (String.eqb n "")
                            && negb (String.eqb n (Connector.name (Connector.self cs)))
                | None => false
                end)) ;;
      (if skip : bool then ret tt else on_object r (Connector.start fuel)) ;;
      start_each fuel name rs
  end.

Definition start (fuel : nat) (name : option string) : Ms unit :=
  with_lock (
    rs <- gets (fun s => (map_to_list (connectors (self s))).*2) ;;
    start_each fuel name rs).

Definition invoke (name : string) (args : list string) : Ms unit :=
  r <- getitem name ;;
  on_object r (Connector.call (H_invoke args) (Connector.invoke args)).

End Methods.

End ConnectorStore.

(** ** Test doubles *)

(** A connect stub driven by a script: the world is the list of what the next
    attempts do. *)
Inductive attempt : Type :=
| Fails_raising (e : exc)   (* _start raises e *)
| Fails_quietly             (* _start returns and is_connected stays False *)
| Connects.                 (* _start sets is_connected to True *)

Definition scripted_start (c : Connector.t) (w : list attempt)
  : Connector.hook_result (list attempt) :=
  match w with
  | [] => (None, c, [])
  | Fails_raising e :: w => (Some e, c, w)
  | Fails_quietly :: w => (None, c, w)
  | Connects :: w => (None, Connector.set_is_connected true c, w)
  end.

(** A subclass that connects by the script and sends and stops without
    failing. *)
Definition Scripted : Connector.Subclass (list attempt) := {|
  Connector.start_in_greenlet := false;
  Connector.get_log_details := fun _ _ => "";
  Connector.get_prev_log_details := fun _ _ => "";
  Connector._start := scripted_start;
  Connector._send := fun _ c w => (None, c, w);
  Connector._stop := fun c w => (None, c, w);
  Connector.invoke := fun _ c w => (None, c, w)
|}.

(** The same, dispatched onto a greenlet. *)
Definition Scripted_greenlet : Connector.Subclass (list attempt) := {|
  Connector.start_in_greenlet := true;
  Connector.get_log_details := fun _ _ => "";
  Connector.get_prev_log_details := fun _ _ => "";
  Connector._start := scripted_start;
  Connector._send := fun _ c w => (None, c, w);
  Connector._stop := fun c w => (None, c, w);
  Connector.invoke := fun _ c w => (None, c, w)
|}.

(** A subclass whose [_stop] raises. *)
Definition Failing_stop : Connector.Subclass (list attempt) := {|
  Connector.start_in_greenlet := false;
  Connector.get_log_details := fun _ _ => "";
  Connector.get_prev_log_details := fun _ _ => "";
  Connector._start := scripted_start;
  Connector._send := fun _ c w => (None, c, w);
  Connector._stop := fun c w => (Some (OtherException "socket.error"), c, w);
  Connector.invoke := fun _ c w => (None, c, w)
|}.

Definition cfg_active : Config.t :=
  Config.mk 1 "out1" true "tcp://10.0.0.1:5555" None None.

Definition cfg_inactive : Config.t :=
  Config.mk 1 "out1" false "tcp://10.0.0.1:5555" None None.

Definition cfg_renamed : Config.t :=
  Config.mk 1 "out2" true "tcp://10.0.0.2:5555" None None.

Definition fresh_connector (cfg : Config.t) : Connector.t :=
  Connector.__init__ (Config.name cfg) "ZeroMQ outgoing" cfg None None.

Definition run {A} (m : M (Connector.state (list attempt)) A)
    (cfg : Config.t) (script : list attempt) :=
  m (Connector.mkstate (fresh_connector cfg) script []).

Definition socket_error : exc := OtherException "socket.error".

Definition empty_store : ConnectorStore.state (list attempt) :=
  ConnectorStore.mkstate (ConnectorStore.__init__ "ZeroMQ outgoing") ∅ [] [].

(** A store with one connector, created under the name "out1". *)
Definition one_connector : ConnectorStore.state (list attempt) :=
  snd (ConnectorStore.create "out1" cfg_active None None empty_store).

(** Further configs: another name and address, another id and service, and
    the first name with another address. *)
Definition cfg_moved : Config.t :=
  Config.mk 1 "out3" true "tcp://10.0.0.3:5555" None None.

Definition cfg_other_id : Config.t :=
  Config.mk 7 "out2" false "tcp://10.0.0.2:5555" (Some "svc.other") None.

Definition cfg_readdressed : Config.t :=
  Config.mk 1 "out1" true "tcp://10.0.0.9:5555" None None.

(** A store with the connectors "out1" and "out2", the second one running. *)
Definition two_connectors : ConnectorStore.state (list attempt) :=
  snd ((ConnectorStore.create "out2" cfg_renamed None None ;;
        ConnectorStore.start (cls := Scripted) 3 (Some "out2"))
         (ConnectorStore.mkstate (ConnectorStore.self one_connector)
            (ConnectorStore.heap one_connector) [Connects] [])).

(** A connector that connected at its first attempt, and the same with
    [keep_connecting] true again. *)
Definition connected_connector : Connector.state (list attempt) :=
  snd (run (Connector.start (cls := Scripted) 5) cfg_active [Connects]).

Definition reopened_connector : Connector.state (list attempt) :=
  Connector.mkstate
    (Connector.set_keep_connecting true (Connector.self connected_connector))
    [Fails_quietly] [].

(** ** Notions the properties are stated with *)

(** The least integer not below [a / b]. *)
Definition ceil_div (a b : nat) : nat := (a + (b - 1)) / b.

(** The two ways a connect attempt fails: [_start] raises, or it returns
    and [is_connected] is still false. *)
Inductive failure : Type := By_raising | Quietly.

Definition is_raising (f : failure) : bool :=
  match f with
  | By_raising => true
  | Quietly => false
  end.

Definition raised (fs : list failure) : nat := length (List.filter is_raising fs).

(** The line the loop adds when the attempt counter reaches a multiple of
    ten. *)
Definition tenth_attempt_line (details name : string) (attempts : nat) : list event :=
  if Nat.eqb (attempts mod 10) 0
  then [EvLog WARN (CouldNotConnect details name attempts)]
  else [].

(** The flags [stop] clears before it enters the [_stop] hook. *)
Definition flags_cleared (c : Connector.t) : Connector.t :=
  Connector.set_keep_running false (Connector.set_keep_connecting false c).

Section Hooks.

Context {W : Type} {cls : Connector.Subclass W}.

(** From [(c, w)] on, the connect hook fails as [fs] lists, one failure per
    attempt, and connects at the attempt after the last of them. *)
Inductive fails_then_connects : list failure -> Connector.t -> W -> Prop :=
| ftc_connects c w c' w' :
    Connector._start c w = (None, c', w') ->
    Connector.is_connected c' = true ->
    fails_then_connects [] c w
| ftc_raises e fs c w c' w' :
    Connector._start c w = (Some e, c', w') ->
    is_Exception e = true ->
    Connector.is_connected c' = false ->
    fails_then_connects fs c' w' ->
    fails_then_connects (By_raising :: fs) c w
| ftc_quietly fs c w c' w' :
    Connector._start c w = (None, c', w') ->
    Connector.is_connected c' = false ->
    fails_then_connects fs c' w' ->
    fails_then_connects (Quietly :: fs) c w.

(** A hook leaves an attribute as it found it. *)
Definition keeps {A} (attr : Connector.t -> A)
    (h : Connector.t -> W -> Connector.hook_result W) : Prop :=
  forall c w, attr (snd (fst (h c w))) = attr c.

(** A hook does not switch a flag on. *)
Definition never_sets (flag : Connector.t -> bool)
    (h : Connector.t -> W -> Connector.hook_result W) : Prop :=
  forall c w, flag c = false -> flag (snd (fst (h c w))) = false.

(** A hook returns, whatever the object and the world. *)
Definition never_raises (h : Connector.t -> W -> Connector.hook_result W) : Prop :=
  forall c w, fst (fst (h c w)) = None.

(** What a hook raises is an [Exception] or a [KeyboardInterrupt]. *)
Definition raises_no_other_base (h : Connector.t -> W -> Connector.hook_result W) : Prop :=
  forall c w e, fst (fst (h c w)) = Some e ->
    is_Exception e = true \/ e = KeyboardInterrupt.

(** The state after the [EventLogger] logged the entry of a bracket, and
    after it logged the exit. *)
Definition after_enter (verb : string) (s : Connector.state W) : Connector.state W :=
  Connector.mkstate (Connector.self s) (Connector.world s)
    (Connector.trace s
     ++ [EvLog DEBUG (StartStopDebug verb (Connector.type (Connector.self s))
                        (Connector.name (Connector.self s)))]).

Definition exit_suffix (verb : string) (s : Connector.state W) : string :=
  let log_details :=
    if contains "Stop" verb
    then Connector.get_prev_log_details (Connector.self s) (Connector.world s)
    else Connector.get_log_details (Connector.self s) (Connector.world s) in
  if String.eqb log_details "" then "" else " (" +:+ log_details +:+ ")".

Definition after_exit (verb : string) (s : Connector.state W) : Connector.state W :=
  Connector.mkstate (Connector.self s) (Connector.world s)
    (Connector.trace s
     ++ [EvLog INFO (StartStopInfo verb (Connector.type (Connector.self s))
                       (Connector.name (Connector.self s)) (exit_suffix verb s))]).

(** The state after [with self.lock] released the lock. *)
Definition after_release (s : Connector.state W) : Connector.state W :=
  Connector.mkstate
    (Connector.set_lock (pred (Connector.lock (Connector.self s))) (Connector.self s))
    (Connector.world s) (Connector.trace s).

(** The object as [_edit] leaves it, the lock held, before the restart. *)
Definition edited (cfg : Config.t) (c : Connector.t) : Connector.t :=
  let cfg := Config.set_prev_address (Config.address (Connector.config c)) cfg in
  Connector.set_config cfg
    (Connector.set_name (Config.name cfg)
       (Connector.set_lock (S (Connector.lock c)) c)).

(** The message of the [Inactive] exception. *)
Definition inactive_message (c : Connector.t) : string :=
  "Connection `" +:+ Connector.name c +:+ "` is inactive ("
  +:+ Connector.type c +:+ ")".

(** The outcome of a call of a hook, by what the hook raised. *)
Definition outcome_of (r : option exc) : outcome unit :=
  match r with
  | None => Ret tt
  | Some e => Raise e
  end.

End Hooks.

(** ** Notions of the further properties *)

(** The events the reconnect loop produces once its attempt counter has
    passed [n]: entries of the connect hook, tracebacks at warn level, pauses
    of two seconds, and the "Could not connect" line at a multiple of ten
    above [n]. *)
Definition loop_event (n : nat) (ev : event) : Prop :=
  match ev with
  | EvCall H_start => True
  | EvLog WARN (Traceback _) => True
  | EvLog WARN (CouldNotConnect _ _ attempts) => attempts mod 10 = 0 /\ n < attempts
  | EvSleep seconds => seconds = 2
  | _ => False
  end.

(** The attributes [__init__] computes from its arguments and no method of
    the class assigns again. *)
Definition set_at_construction (c : Connector.t) :=
  (Connector.type c, Connector.on_message_callback c, Connector.auth_func c,
   Connector.service c, Connector.id c, Connector.is_active c,
   Connector.is_inactive c).

(** An outcome that is a return or a raise, not a cut of the fuel. *)
Definition completed {A} (r : outcome A) : bool :=
  match r with
  | Abort _ => false
  | _ => true
  end.

Section Hooks_more.

Context {W : Type}.

(** A connect hook that never connects: it leaves an unconnected connector
    unconnected, and what it raises is an [Exception]. *)
Definition always_fails (h : Connector.t -> W -> Connector.hook_result W) : Prop :=
  forall c w,
    Connector.is_connected c = false ->
    Connector.is_connected (snd (fst (h c w))) = false /\
    match fst (fst (h c w)) with
    | Some e => is_Exception e = true
    | None => True
    end.

(** A method of the store that leaves the lock of the store as it found it. *)
Definition keeps_store_lock {A} (m : M (ConnectorStore.state W) A) : Prop :=
  forall s,
    ConnectorStore.lock (ConnectorStore.self (snd (m s)))
    = ConnectorStore.lock (ConnectorStore.self s).

(** Every entry of the registry leads to an object, and none of the objects
    has the name [n]. *)
Definition no_connector_named (n : string) (s : ConnectorStore.state W) : Prop :=
  forall key r,
    ConnectorStore.connectors (ConnectorStore.self s) !! key = Some r ->
    exists c, ConnectorStore.heap s !! r = Some c /\ Connector.name c <> n.

End Hooks_more.

(** ** Arithmetic of the attempt counter *)

Lemma tenth_step (n : nat) :
  (n + 1) / 10 = n / 10 + (if Nat.eqb ((n + 1) mod 10) 0 then 1 else 0).
Proof.
  pose proof (Nat.div_mod_eq n 10) as Hn.
  pose proof (Nat.div_mod_eq (n + 1) 10) as Hn1.
  pose proof (Nat.mod_upper_bound n 10 ltac:(lia)) as Bn.
  pose proof (Nat.mod_upper_bound (n + 1) 10 ltac:(lia)) as Bn1.
  destruct (Nat.eqb_spec ((n + 1) mod 10) 0) as [E | E]; lia.
Qed.

Lemma floor_le_next (k : nat) : k / 10 <= (k + 1) / 10.
Proof. rewrite tenth_step. lia. Qed.

Lemma next_le_ceil (k : nat) : (k + 1) / 10 <= ceil_div k 10.
Proof.
  unfold ceil_div. simpl Nat.sub.
  pose proof (Nat.div_mod_eq (k + 1) 10) as H1.
  pose proof (Nat.div_mod_eq (k + 9) 10) as H9.
  pose proof (Nat.mod_upper_bound (k + 1) 10 ltac:(lia)) as B1.
  pose proof (Nat.mod_upper_bound (k + 9) 10 ltac:(lia)) as B9.
  lia.
Qed.

(** ** Counting in traces *)

Lemma count_app (p : event -> bool) (a b : list event) :
  count p (a ++ b) = count p a + count p b.
Proof. unfold count. rewrite List.filter_app, length_app. reflexivity. Qed.

Lemma pauses_app (a b : list event) : pauses (a ++ b) = pauses a ++ pauses b.
Proof. unfold pauses. apply omap_app. Qed.

Lemma warn_count_tenth details name n :
  warn_count (tenth_attempt_line details name n)
  = if Nat.eqb (n mod 10) 0 then 1 else 0.
Proof. unfold tenth_attempt_line. destruct (Nat.eqb _ 0); reflexivity. Qed.

Lemma connect_count_tenth details name n :
  connect_count (tenth_attempt_line details name n) = 0.
Proof. unfold tenth_attempt_line. destruct (Nat.eqb _ 0); reflexivity. Qed.

Lemma pauses_tenth details name n :
  pauses (tenth_attempt_line details name n) = [].
Proof. unfold tenth_attempt_line. destruct (Nat.eqb _ 0); reflexivity. Qed.

(** ** The reconnect loop *)

Section Loop.

Context {W : Type} {cls : Connector.Subclass W}.

Import Connector.

(** One attempt whose hook raises an [Exception]: the traceback is logged
    at warn level, the loop pauses for two seconds, the attempt is counted. *)
Lemma attempt_raising n c w tr e c' w' :
  _start c w = (Some e, c', w') ->
  is_Exception e = true ->
  _start_loop_inner_body n (mkstate c w tr)
  = (Ret (n + 1),
     mkstate c' w'
       ((((tr ++ [EvCall H_start]) ++ [EvLog WARN (Traceback e)]) ++ [EvSleep 2])
        ++ tenth_attempt_line (get_log_details c' w') (name c') (n + 1))).
Proof.
  intros Hh He.
  unfold _start_loop_inner_body, tenth_attempt_line; cbv zeta.
  generalize (Nat.eqb ((n + 1) mod 10) 0) as tenth; intros tenth.
  unfold try_except, call, bind, emit, log, sleep, modify, gets, ret; cbn.
  rewrite Hh; cbn. rewrite He; cbn.
  destruct tenth; cbn; rewrite ?app_nil_r; reflexivity.
Qed.

(** One attempt whose hook returns: the attempt is counted, whether it
    connected or not, and nothing else happens. *)
Lemma attempt_returning n c w tr c' w' :
  _start c w = (None, c', w') ->
  _start_loop_inner_body n (mkstate c w tr)
  = (Ret (n + 1),
     mkstate c' w'
       ((tr ++ [EvCall H_start])
        ++ tenth_attempt_line (get_log_details c' w') (name c') (n + 1))).
Proof.
  intros Hh.
  unfold _start_loop_inner_body, tenth_attempt_line; cbv zeta.
  generalize (Nat.eqb ((n + 1) mod 10) 0) as tenth; intros tenth.
  unfold try_except, call, bind, emit, log, sleep, modify, gets, ret; cbn.
  rewrite Hh; cbn.
  destruct tenth; cbn; rewrite ?app_nil_r; reflexivity.
Qed.

(** One attempt whose hook raises something that is not an [Exception]: it
    leaves the loop body. *)
Lemma attempt_interrupted n c w tr e c' w' :
  _start c w = (Some e, c', w') ->
  is_Exception e = false ->
  _start_loop_inner_body n (mkstate c w tr)
  = (Raise e, mkstate c' w' (tr ++ [EvCall H_start])).
Proof.
  intros Hh He.
  unfold _start_loop_inner_body; cbv zeta.
  generalize (Nat.eqb ((n + 1) mod 10) 0) as tenth; intros tenth.
  unfold try_except, call, bind, emit, log, sleep, modify, gets, ret; cbn.
  rewrite Hh; cbn. rewrite He; reflexivity.
Qed.

Lemma inner_unfold fuel n s :
  _start_loop_inner (S fuel) n s
  = if is_connected (self s) then (Ret n, s)
    else match _start_loop_inner_body n s with
         | (Ret n', s') => _start_loop_inner fuel n' s'
         | (Raise e, s') => (Raise e, s')
         | (Abort why, s') => (Abort why, s')
         end.
Proof.
  cbn [_start_loop_inner]. unfold bind at 1, gets at 1.
  destruct (is_connected (self s)); [reflexivity |].
  unfold bind. reflexivity.
Qed.

Lemma outer_unfold fuel n s :
  _start_loop_outer (S fuel) n s
  = if keep_connecting (self s)
    then match _start_loop_inner fuel n s with
         | (Ret n', s') =>
             _start_loop_outer fuel n'
               (mkstate (set_keep_connecting false (self s')) (world s') (trace s'))
         | (Raise e, s') => (Raise e, s')
         | (Abort why, s') => (Abort why, s')
         end
    else (Ret tt, s).
Proof.
  cbn [_start_loop_outer]. unfold bind at 1, gets at 1.
  destruct (keep_connecting (self s)); [| reflexivity].
  unfold bind, update, modify.
  destruct (_start_loop_inner fuel n s) as [[n' | e | why] s']; reflexivity.
Qed.

(** The inner loop against a hook that fails as [fs] lists and then
    connects: it returns connected after one attempt more than [fs] has
    failures; every raising failure costs one warn line and one pause of two
    seconds, and the counter adds one warn line at each multiple of ten. *)
Lemma inner_connects fs :
  forall fuel n c w tr,
    fails_then_connects fs c w ->
    is_connected c = false ->
    length fs + 2 <= fuel ->
    exists c' w' tr',
      _start_loop_inner fuel n (mkstate c w tr)
      = (Ret (n + length fs + 1), mkstate c' w' (tr ++ tr')) /\
      is_connected c' = true /\
      connect_count tr' = length fs + 1 /\
      pauses tr' = repeat 2 (raised fs) /\
      warn_count tr' + n / 10 = raised fs + (n + length fs + 1) / 10.
Proof.
  induction fs as [| f fs IH]; intros fuel n c w tr Hfs Hc Hfuel.
  - inversion Hfs as [c0 w0 c' w' Hh Hc' | |]; subst.
    destruct fuel as [| [| fuel]]; cbn in Hfuel; try lia.
    exists c', w', ([EvCall H_start]
                    ++ tenth_attempt_line (get_log_details c' w') (name c') (n + 1)).
    rewrite inner_unfold; cbn [self]; rewrite Hc.
    rewrite (attempt_returning _ _ _ _ _ _ Hh).
    rewrite inner_unfold; cbn [self]; rewrite Hc'.
    repeat split.
    + rewrite <- !app_assoc, Nat.add_0_r. reflexivity.
    + unfold connect_count. rewrite count_app.
      fold connect_count. rewrite connect_count_tenth. reflexivity.
    + rewrite pauses_app, pauses_tenth. reflexivity.
    + unfold warn_count. rewrite count_app. fold warn_count.
      rewrite warn_count_tenth. cbn [length raised List.filter].
      rewrite Nat.add_0_r, (tenth_step n). cbn [length].
      change (warn_count [EvCall H_start]) with 0.
      destruct (Nat.eqb ((n + 1) mod 10) 0); lia.
  - destruct fuel as [| fuel]; cbn in Hfuel; try lia.
    rewrite inner_unfold; cbn [self]; rewrite Hc.
    inversion Hfs as [| e fs0 c0 w0 c' w' Hh He Hc' Hrest
                      | fs0 c0 w0 c' w' Hh Hc' Hrest]; subst.
    + rewrite (attempt_raising _ _ _ _ _ _ _ Hh He).
      destruct (IH fuel (n + 1) c' w'
                  ((((tr ++ [EvCall H_start]) ++ [EvLog WARN (Traceback e)])
                    ++ [EvSleep 2])
                   ++ tenth_attempt_line (get_log_details c' w') (name c') (n + 1))
                  Hrest Hc' ltac:(lia))
        as (c'' & w'' & tr'' & Hrun & Hconn & Hcalls & Hpauses & Hwarns).
      exists c'', w'',
        ([EvCall H_start; EvLog WARN (Traceback e); EvSleep 2]
         ++ tenth_attempt_line (get_log_details c' w') (name c') (n + 1) ++ tr'').
      rewrite Hrun. repeat split.
      * cbn [length]. rewrite <- !app_assoc. cbn [app].
        replace (n + 1 + length fs + 1) with (n + S (length fs) + 1) by lia.
        reflexivity.
      * assumption.
      * unfold connect_count in *. rewrite !count_app.
        fold connect_count. rewrite connect_count_tenth.
        fold connect_count in Hcalls. rewrite Hcalls. cbn. lia.
      * rewrite !pauses_app, pauses_tenth, Hpauses. reflexivity.
      * unfold warn_count in *. rewrite !count_app.
        fold warn_count. fold warn_count in Hwarns.
        rewrite warn_count_tenth.
        rewrite (tenth_step n) in Hwarns.
        cbn [length raised List.filter is_raising] in *.
        change (warn_count [EvCall H_start; EvLog WARN (Traceback e); EvSleep 2])
          with 1.
        replace (n + S (length fs) + 1) with (n + 1 + length fs + 1) by lia.
        unfold raised in *. cbn [length List.filter is_raising].
        destruct (Nat.eqb ((n + 1) mod 10) 0); lia.
    + rewrite (attempt_returning _ _ _ _ _ _ Hh).
      destruct (IH fuel (n + 1) c' w'
                  ((tr ++ [EvCall H_start])
                   ++ tenth_attempt_line (get_log_details c' w') (name c') (n + 1))
                  Hrest Hc' ltac:(lia))
        as (c'' & w'' & tr'' & Hrun & Hconn & Hcalls & Hpauses & Hwarns).
      exists c'', w'',
        ([EvCall H_start]
         ++ tenth_attempt_line (get_log_details c' w') (name c') (n + 1) ++ tr'').
      rewrite Hrun. repeat split.
      * cbn [length]. rewrite <- !app_assoc. cbn [app].
        replace (n + 1 + length fs + 1) with (n + S (length fs) + 1) by lia.
        reflexivity.
      * assumption.
      * unfold connect_count in *. rewrite !count_app.
        fold connect_count. rewrite connect_count_tenth.
        fold connect_count in Hcalls. rewrite Hcalls. cbn. lia.
      * rewrite !pauses_app, pauses_tenth, Hpauses. reflexivity.
      * unfold warn_count in *. rewrite !count_app.
        fold warn_count. fold warn_count in Hwarns.
        rewrite warn_count_tenth.
        rewrite (tenth_step n) in Hwarns.
        cbn [length raised List.filter is_raising] in *.
        change (warn_count [EvCall H_start]) with 0.
        replace (n + S (length fs) + 1) with (n + 1 + length fs + 1) by lia.
        unfold raised in *. cbn [length List.filter is_raising].
        destruct (Nat.eqb ((n + 1) mod 10) 0); lia.
Qed.

Lemma bracket_unfold {A} (enter_verb exit_verb : string)
    (body : M (state W) A) (s : state W) :
  with_start_stop_logger enter_verb exit_verb body s
  = match body (after_enter enter_verb s) with
    | (Ret a, s') => (Ret a, after_exit exit_verb s')
    | (Raise e, s') => (Raise e, after_exit exit_verb s')
    | (Abort why, s') => (Abort why, s')
    end.
Proof.
  unfold with_start_stop_logger, _start_stop_logger, EventLogger.__enter__,
    EventLogger.__exit__, with_; cbn [EventLogger.enter_func EventLogger.exit_func
    EventLogger.enter_verb EventLogger.exit_verb].
  unfold _debug_start_stop, _info_start_stop,
    after_enter, after_exit, exit_suffix, bind, gets, log, emit, modify.
  destruct (body _) as [[a | e | why] s']; reflexivity.
Qed.

Lemma start_loop_unfold fuel s :
  _start_loop fuel s
  = match _start_loop_outer fuel 0 s with
    | (Raise e, s') =>
        if is_KeyboardInterrupt e
        then (Ret tt, mkstate (set_keep_connecting false (self s')) (world s') (trace s'))
        else (Raise e, s')
    | r => r
    end.
Proof. reflexivity. Qed.

(** [start]: the flag, then the loop or its dispatch inside the [try], the
    whole between the two lines of the bracket. *)
Lemma start_unfold fuel s :
  start fuel s
  = match (if start_in_greenlet then spawn_greenlet (_spawn_start fuel)
          else _start_loop fuel)
            (mkstate (set_keep_running true (self s)) (world s)
               (trace (after_enter "Starting" s))) with
    | (Ret _, s') => (Ret tt, after_exit " Started" s')
    | (Raise e, s') =>
        if is_Exception e
        then (Ret tt, after_exit " Started"
                        (mkstate (self s') (world s')
                           (trace s' ++ [EvLog WARN (Traceback e)])))
        else (Raise e, after_exit " Started" s')
    | (Abort why, s') => (Abort why, s')
    end.
Proof.
  unfold start. rewrite bracket_unfold.
  unfold bind at 1, update at 1, modify at 1, try_except. cbn [after_enter self world trace].
  destruct ((if start_in_greenlet then spawn_greenlet (_spawn_start fuel)
          else _start_loop fuel) _)
    as [[[] | e | why] s']; try reflexivity.
  destruct (is_Exception e); reflexivity.
Qed.

(** [stop]: the two flags, then the hook, between the two lines of the
    bracket; what the hook raises goes to the caller. *)
Lemma stop_unfold s :
  stop s
  = let '(r, c', w') := _stop (flags_cleared (self s)) (world s) in
    (outcome_of r,
     after_exit " Stopped"
       (mkstate c' w' (trace (after_enter "Stopping" s) ++ [EvCall H_stop]))).
Proof.
  unfold stop. rewrite bracket_unfold.
  cbv [bind update modify call emit flags_cleared after_enter self world trace].
  destruct (_stop _ _) as [[[e |] c'] w']; reflexivity.
Qed.

(** With [keep_connecting] false the loop is left at its first test. *)
Lemma start_loop_not_entered fuel s :
  keep_connecting (self s) = false ->
  _start_loop (S fuel) s = (Ret tt, s).
Proof.
  intros Hk. rewrite start_loop_unfold, outer_unfold, Hk. reflexivity.
Qed.

(** The loop against a hook that fails as [fs] lists and then connects. *)
Lemma start_loop_connects fs fuel c w tr :
  fails_then_connects fs c w ->
  keep_connecting c = true ->
  is_connected c = false ->
  length fs + 3 <= fuel ->
  exists c' w' tr',
    _start_loop fuel (mkstate c w tr)
    = (Ret tt, mkstate (set_keep_connecting false c') w' (tr ++ tr')) /\
    is_connected c' = true /\
    connect_count tr' = length fs + 1 /\
    pauses tr' = repeat 2 (raised fs) /\
    warn_count tr' = raised fs + (length fs + 1) / 10.
Proof.
  intros Hfs Hk Hc Hfuel.
  destruct fuel as [| [| fuel]]; try lia.
  destruct (inner_connects fs (S fuel) 0 c w tr Hfs Hc ltac:(lia))
    as (c' & w' & tr' & Hrun & Hconn & Hcalls & Hpauses & Hwarns).
  exists c', w', tr'.
  rewrite start_loop_unfold, outer_unfold. cbn [self]. rewrite Hk, Hrun.
  rewrite outer_unfold. cbn [self world trace keep_connecting set_keep_connecting].
  repeat split; try assumption.
  change (0 / 10) with 0 in Hwarns. cbn [Nat.add] in Hwarns. lia.
Qed.

End Loop.

(** ** The reconnect loop under [start] *)

Section Start.

Context {W : Type} {cls : Connector.Subclass W}.

Import Connector.

(** The synchronous [start] against a hook that fails as [fs] lists and
    then connects. *)
Lemma start_connects fs fuel c w tr :
  start_in_greenlet = false ->
  keep_connecting c = true ->
  is_connected c = false ->
  fails_then_connects fs (set_keep_running true c) w ->
  length fs + 3 <= fuel ->
  exists c' w' tr',
    start fuel (mkstate c w tr) = (Ret tt, mkstate c' w' (tr ++ tr')) /\
    is_connected c' = true /\
    keep_connecting c' = false /\
    connect_count tr' = length fs + 1 /\
    pauses tr' = repeat 2 (raised fs) /\
    warn_count tr' = raised fs + (length fs + 1) / 10.
Proof.
  intros Hsync Hk Hc Hfs Hfuel.
  destruct (start_loop_connects fs fuel (set_keep_running true c) w
              (trace (after_enter "Starting" (mkstate c w tr))) Hfs Hk Hc Hfuel)
    as (c' & w' & tr' & Hrun & Hconn & Hcalls & Hpauses & Hwarns).
  rewrite start_unfold, Hsync. cbn [self world].
  rewrite Hrun.
  eexists _, _, _. split.
  - unfold after_exit, after_enter. cbn [self world trace].
    rewrite <- !app_assoc. reflexivity.
  - repeat split.
    + exact Hconn.
    + unfold connect_count in *. rewrite !count_app, Hcalls.
      unfold count; cbn [List.filter is_connect_call length]. lia.
    + rewrite !pauses_app, Hpauses.
      unfold pauses; cbn [omap list_omap pause_of]. rewrite app_nil_r. reflexivity.
    + unfold warn_count in *. rewrite !count_app, Hwarns.
      unfold count; cbn [List.filter is_warn length]. lia.
Qed.

End Start.

(** C1 (amended). In the reconnect loop entered by a synchronous [start] of
    a connector that is to keep connecting and is not connected, a failed
    attempt that raises an [Exception] is caught without ending the loop, is
    logged at warn level every time, and is followed by a pause of two
    seconds; a failed attempt that returns is followed by neither; besides,
    the attempt counter adds a warn line at its multiples of ten. So, for a
    connect hook that fails K times, R of them by raising, and then connects,
    [start] returns with [is_connected] true after K+1 attempts and R pauses
    of two seconds, and the warn lines number at least R + floor(K/10) and at
    most R + ceil(K/10). *)
Theorem C1_reconnect_loop_warns_and_pauses
    {W : Type} (cls : Connector.Subclass W)
    (fs : list failure) (c : Connector.t) (w : W) (tr : list event) (fuel : nat) :
  Connector.start_in_greenlet = false ->
  Connector.keep_connecting c = true ->
  Connector.is_connected c = false ->
  fails_then_connects fs (Connector.set_keep_running true c) w ->
  length fs + 3 <= fuel ->
  exists c' w' tr',
    Connector.start fuel (Connector.mkstate c w tr)
    = (Ret tt, Connector.mkstate c' w' (tr ++ tr')) /\
    Connector.is_connected c' = true /\
    connect_count tr' = length fs + 1 /\
    pauses tr' = repeat 2 (raised fs) /\
    raised fs + length fs / 10 <= warn_count tr' /\
    warn_count tr' <= raised fs + ceil_div (length fs) 10.
Proof.
  intros Hsync Hk Hc Hfs Hfuel.
  destruct (start_connects fs fuel c w tr Hsync Hk Hc Hfs Hfuel)
    as (c' & w' & tr' & Hrun & Hconn & _ & Hcalls & Hpauses & Hwarns).
  exists c', w', tr'. repeat split; try assumption.
  - rewrite Hwarns. pose proof (floor_le_next (length fs)). lia.
  - rewrite Hwarns. pose proof (next_le_ceil (length fs)). lia.
Qed.

(** A hook that raises, then returns unconnected, then connects. *)
Lemma C1_witness :
  exists c' w' tr',
    Connector.start (cls := Scripted) 5
      (Connector.mkstate (fresh_connector cfg_active)
         [Fails_raising socket_error; Fails_quietly; Connects] [])
    = (Ret tt, Connector.mkstate c' w' ([] ++ tr')) /\
    Connector.is_connected c' = true /\
    connect_count tr' = 3 /\
    pauses tr' = [2] /\
    1 + 2 / 10 <= warn_count tr' /\
    warn_count tr' <= 1 + ceil_div 2 10.
Proof.
  apply (C1_reconnect_loop_warns_and_pauses Scripted [By_raising; Quietly]
           (fresh_connector cfg_active)
           [Fails_raising socket_error; Fails_quietly; Connects] [] 5).
  - reflexivity.
  - reflexivity.
  - reflexivity.
  - eapply ftc_raises; [reflexivity | reflexivity | reflexivity |].
    eapply ftc_quietly; [reflexivity | reflexivity |].
    eapply ftc_connects; reflexivity.
  - simpl. lia.
Defined.

(** C1 as stated fails: a hook that fails twice by raising and then connects
    makes the loop log two warn lines, more than ceil(2/10) = 1; and a hook
    that fails once by returning unconnected is retried without a pause. *)
Lemma C1_counterexample :
  let raising := [Fails_raising socket_error; Fails_raising socket_error; Connects] in
  let quiet := [Fails_quietly; Connects] in
  let after script :=
    snd (run (Connector.start (cls := Scripted) 10) cfg_active script) in
  fails_then_connects (cls := Scripted) [By_raising; By_raising]
    (Connector.set_keep_running true (fresh_connector cfg_active)) raising /\
  Connector.is_connected (Connector.self (after raising)) = true /\
  warn_count (Connector.trace (after raising)) = 2 /\
  ~ warn_count (Connector.trace (after raising)) <= ceil_div 2 10 /\
  fails_then_connects (cls := Scripted) [Quietly]
    (Connector.set_keep_running true (fresh_connector cfg_active)) quiet /\
  connect_count (Connector.trace (after quiet)) = 2 /\
  pauses (Connector.trace (after quiet)) = [].
Proof.
  cbv zeta. repeat split.
  - eapply ftc_raises; [reflexivity | reflexivity | reflexivity |].
    eapply ftc_raises; [reflexivity | reflexivity | reflexivity |].
    eapply ftc_connects; reflexivity.
  - vm_compute. intros H. inversion H as [| ? H']. inversion H'.
  - eapply ftc_quietly; [reflexivity | reflexivity |].
    eapply ftc_connects; reflexivity.
Qed.

(** ** What holds of the loop against any hook *)

Section Loop_facts.

Context {W : Type} {cls : Connector.Subclass W}.

Import Connector.

(** The three ways the body of the inner loop ends, by what the hook does. *)
Lemma attempt_cases n s :
  exists r c' w' tr',
    _start (self s) (world s) = (r, c', w') /\
    trace (snd (_start_loop_inner_body n s)) = trace s ++ EvCall H_start :: tr' /\
    self (snd (_start_loop_inner_body n s)) = c' /\
    match r with
    | Some e =>
        if is_Exception e
        then fst (_start_loop_inner_body n s) = Ret (n + 1)
        else fst (_start_loop_inner_body n s) = Raise e
    | None => fst (_start_loop_inner_body n s) = Ret (n + 1)
    end.
Proof.
  destruct s as [c w tr]. cbn [self world trace].
  destruct (_start c w) as [[[e |] c'] w'] eqn:Hh.
  - destruct (is_Exception e) eqn:He.
    + rewrite (attempt_raising _ _ _ _ _ _ _ Hh He).
      exists (Some e), c', w',
        ([EvLog WARN (Traceback e); EvSleep 2]
         ++ tenth_attempt_line (get_log_details c' w') (name c') (n + 1)).
      rewrite He. cbn [fst snd self trace].
      rewrite <- !app_assoc. cbn [app]. repeat split.
    + rewrite (attempt_interrupted _ _ _ _ _ _ _ Hh He).
      exists (Some e), c', w', []. rewrite He. repeat split.
  - rewrite (attempt_returning _ _ _ _ _ _ Hh).
    exists None, c', w',
      (tenth_attempt_line (get_log_details c' w') (name c') (n + 1)).
    cbn [fst snd self trace].
    rewrite <- !app_assoc. cbn [app]. repeat split.
Qed.

Lemma inner_extends fuel :
  forall n s, exists tr', trace (snd (_start_loop_inner fuel n s)) = trace s ++ tr'.
Proof.
  induction fuel as [| fuel IH]; intros n s.
  - exists []. cbn. rewrite app_nil_r. reflexivity.
  - rewrite inner_unfold.
    destruct (is_connected (self s)).
    + exists []. cbn. rewrite app_nil_r. reflexivity.
    + destruct (attempt_cases n s) as (r & c' & w' & tr' & _ & Htr & _ & _).
      destruct (_start_loop_inner_body n s) as [[n' | e | why] s']; cbn [snd] in *.
      * destruct (IH n' s') as (tr'' & Htr'').
        rewrite Htr'', Htr, <- app_assoc. eauto.
      * rewrite Htr. eauto.
      * rewrite Htr. eauto.
Qed.

(** An unconnected connector that enters the inner loop enters the connect
    hook. *)
Lemma inner_first_call fuel n s :
  is_connected (self s) = false ->
  exists tr',
    trace (snd (_start_loop_inner (S fuel) n s)) = trace s ++ EvCall H_start :: tr'.
Proof.
  intros Hc. rewrite inner_unfold, Hc.
  destruct (attempt_cases n s) as (r & c' & w' & tr' & _ & Htr & _ & _).
  destruct (_start_loop_inner_body n s) as [[n' | e | why] s']; cbn [snd] in *.
  - destruct (inner_extends fuel n' s') as (tr'' & Htr'').
    rewrite Htr'', Htr, <- app_assoc. cbn [app]. eauto.
  - rewrite Htr. eauto.
  - rewrite Htr. eauto.
Qed.

Lemma outer_extends fuel :
  forall n s, exists tr', trace (snd (_start_loop_outer fuel n s)) = trace s ++ tr'.
Proof.
  induction fuel as [| fuel IH]; intros n s.
  - exists []. cbn. rewrite app_nil_r. reflexivity.
  - rewrite outer_unfold.
    destruct (keep_connecting (self s)).
    + destruct (inner_extends fuel n s) as (tr' & Htr).
      destruct (_start_loop_inner fuel n s) as [[n' | e | why] s']; cbn [snd] in *.
      * destruct (IH n' (mkstate (set_keep_connecting false (self s')) (world s')
                           (trace s'))) as (tr'' & Htr'').
        rewrite Htr''. cbn [trace]. rewrite Htr, <- app_assoc. eauto.
      * eauto.
      * eauto.
    + exists []. cbn. rewrite app_nil_r. reflexivity.
Qed.

Lemma outer_first_call fuel n s :
  keep_connecting (self s) = true ->
  is_connected (self s) = false ->
  exists tr',
    trace (snd (_start_loop_outer (S (S fuel)) n s)) = trace s ++ EvCall H_start :: tr'.
Proof.
  intros Hk Hc. rewrite outer_unfold, Hk.
  destruct (inner_first_call fuel n s Hc) as (tr' & Htr).
  destruct (_start_loop_inner (S fuel) n s) as [[n' | e | why] s']; cbn [snd] in *.
  - destruct (outer_extends (S fuel) n'
                (mkstate (set_keep_connecting false (self s')) (world s') (trace s')))
      as (tr'' & Htr'').
    rewrite Htr''. cbn [trace]. rewrite Htr, <- app_assoc. cbn [app]. eauto.
  - eauto.
  - eauto.
Qed.

(** The inner loop lets nothing out that [except Exception] catches, and
    what it lets out was raised by the connect hook. *)
Lemma inner_raises fuel :
  forall n s e,
    fst (_start_loop_inner fuel n s) = Raise e ->
    is_Exception e = false /\ exists c w, fst (fst (_start c w)) = Some e.
Proof.
  induction fuel as [| fuel IH]; intros n s e.
  - cbn. discriminate.
  - rewrite inner_unfold.
    destruct (is_connected (self s)); [cbn; discriminate |].
    destruct (attempt_cases n s) as (r & c' & w' & tr' & Hh & _ & _ & Hr).
    destruct (_start_loop_inner_body n s) as [[n' | e' | why] s']; cbn [fst] in *.
    + apply IH.
    + intros [= ->].
      destruct r as [e0 |]; [| discriminate].
      destruct (is_Exception e0) eqn:He0; [discriminate |].
      injection Hr as ->. split; [assumption |].
      exists (self s), (world s). rewrite Hh. reflexivity.
    + discriminate.
Qed.

Lemma outer_raises fuel :
  forall n s e,
    fst (_start_loop_outer fuel n s) = Raise e ->
    is_Exception e = false /\ exists c w, fst (fst (_start c w)) = Some e.
Proof.
  induction fuel as [| fuel IH]; intros n s e.
  - cbn. discriminate.
  - rewrite outer_unfold.
    destruct (keep_connecting (self s)); [| cbn; discriminate].
    pose proof (inner_raises fuel n s) as Hin.
    destruct (_start_loop_inner fuel n s) as [[n' | e' | why] s']; cbn [fst] in *.
    + apply IH.
    + intros [= ->]. apply Hin. reflexivity.
    + discriminate.
Qed.

(** When the outer loop returns, [keep_connecting] is false. *)
Lemma outer_returns fuel :
  forall n s,
    fst (_start_loop_outer fuel n s) = Ret tt ->
    keep_connecting (self (snd (_start_loop_outer fuel n s))) = false.
Proof.
  induction fuel as [| fuel IH]; intros n s.
  - cbn. discriminate.
  - rewrite outer_unfold.
    destruct (keep_connecting (self s)) eqn:Hk; [| intros _; exact Hk].
    destruct (_start_loop_inner fuel n s) as [[n' | e' | why] s']; cbn [fst].
    + apply IH.
    + discriminate.
    + discriminate.
Qed.

(** The loop as a whole: what it raises is neither an [Exception] nor a
    [KeyboardInterrupt], and when it returns [keep_connecting] is false. *)
Lemma start_loop_raises fuel s e :
  fst (_start_loop fuel s) = Raise e ->
  is_Exception e = false /\ is_KeyboardInterrupt e = false /\
  exists c w, fst (fst (_start c w)) = Some e.
Proof.
  rewrite start_loop_unfold.
  pose proof (outer_raises fuel 0 s) as Hout.
  destruct (_start_loop_outer fuel 0 s) as [[[] | e' | why] s']; cbn [fst] in *;
    try discriminate.
  destruct (is_KeyboardInterrupt e') eqn:Hki; cbn [fst]; [discriminate |].
  intros [= ->]. destruct (Hout e eq_refl) as [He Hh]. auto.
Qed.

Lemma start_loop_returns fuel s :
  fst (_start_loop fuel s) = Ret tt ->
  keep_connecting (self (snd (_start_loop fuel s))) = false.
Proof.
  rewrite start_loop_unfold.
  pose proof (outer_returns fuel 0 s) as Hout.
  destruct (_start_loop_outer fuel 0 s) as [[[] | e' | why] s']; cbn [fst snd] in *.
  - intros _. apply Hout. reflexivity.
  - destruct (is_KeyboardInterrupt e'); cbn [fst snd]; [reflexivity | discriminate].
  - discriminate.
Qed.

Lemma start_loop_first_call fuel s :
  keep_connecting (self s) = true ->
  is_connected (self s) = false ->
  exists tr',
    trace (snd (_start_loop (S (S fuel)) s)) = trace s ++ EvCall H_start :: tr'.
Proof.
  intros Hk Hc. rewrite start_loop_unfold.
  destruct (outer_first_call fuel 0 s Hk Hc) as (tr' & Htr).
  destruct (_start_loop_outer (S (S fuel)) 0 s) as [[[] | e' | why] s']; cbn [snd] in *;
    eauto.
  destruct (is_KeyboardInterrupt e'); cbn [snd trace]; eauto.
Qed.

End Loop_facts.

(** ** [send] *)

Section Send.

Context {W : Type} {cls : Connector.Subclass W}.

Import Connector.

Lemma set_lock_restore c :
  set_lock (pred (S (lock c))) (set_lock (S (lock c)) c) = c.
Proof. destruct c; reflexivity. Qed.

(** [send]: under the lock, the [Inactive] exception when [is_inactive] is
    set, the [_send] hook otherwise. *)
Lemma send_unfold m s :
  send m s
  = if is_inactive (self s)
    then (Raise (Inactive (inactive_message (self s))), s)
    else
      let '(r, c', w') := _send m (set_lock (S (lock (self s))) (self s)) (world s) in
      (outcome_of r,
       mkstate (set_lock (pred (lock c')) c') w' (trace s ++ [EvCall (H_send m)])).
Proof.
  destruct s as [c w tr].
  cbv [send with_lock with_ bind update modify gets raise call emit
       self world trace].
  change (is_inactive (set_lock (S (lock c)) c)) with (is_inactive c).
  destruct (is_inactive c).
  - change (lock (set_lock (S (lock c)) c)) with (S (lock c)).
    rewrite set_lock_restore. reflexivity.
  - destruct (_send m _ w) as [[[e |] c'] w']; reflexivity.
Qed.

End Send.

(** ** Attributes no method and no hook changes *)

Section Preservation.

Context {W : Type} {cls : Connector.Subclass W}.

Import Connector.

Variable P : t -> Prop.

Hypothesis P_keep_running : forall c b, P c -> P (set_keep_running b c).
Hypothesis P_keep_connecting : forall c, P c -> P (set_keep_connecting false c).
Hypothesis P_start : forall c w, P c -> P (snd (fst (_start c w))).
Hypothesis P_stop : forall c w, P c -> P (snd (fst (_stop c w))).

Lemma inner_preserves fuel :
  forall n s, P (self s) -> P (self (snd (_start_loop_inner fuel n s))).
Proof.
  induction fuel as [| fuel IH]; intros n s HP.
  - exact HP.
  - rewrite inner_unfold.
    destruct (is_connected (self s)); [exact HP |].
    destruct (attempt_cases n s) as (r & c' & w' & tr' & Hh & _ & Hself & _).
    pose proof (P_start (self s) (world s) HP) as HP'.
    rewrite Hh in HP'. cbn [fst snd] in HP'. rewrite <- Hself in HP'.
    destruct (_start_loop_inner_body n s) as [[n' | e | why] s']; cbn [snd] in *;
      auto.
Qed.

Lemma outer_preserves fuel :
  forall n s, P (self s) -> P (self (snd (_start_loop_outer fuel n s))).
Proof.
  induction fuel as [| fuel IH]; intros n s HP.
  - exact HP.
  - rewrite outer_unfold.
    destruct (keep_connecting (self s)); [| exact HP].
    pose proof (inner_preserves fuel n s HP) as HP'.
    destruct (_start_loop_inner fuel n s) as [[n' | e | why] s']; cbn [snd] in *;
      auto.
    apply IH. cbn [self]. auto.
Qed.

Lemma start_loop_preserves fuel s :
  P (self s) -> P (self (snd (_start_loop fuel s))).
Proof.
  intros HP. rewrite start_loop_unfold.
  pose proof (outer_preserves fuel 0 s HP) as HP'.
  destruct (_start_loop_outer fuel 0 s) as [[[] | e | why] s']; cbn [snd] in *; auto.
  destruct (is_KeyboardInterrupt e); cbn [snd self]; auto.
Qed.

Lemma start_preserves fuel s :
  P (self s) -> P (self (snd (start fuel s))).
Proof.
  intros HP. rewrite start_unfold.
  assert (HP' : P (self (snd ((if start_in_greenlet
                               then spawn_greenlet (_spawn_start fuel)
                               else _start_loop fuel)
                                (mkstate (set_keep_running true (self s)) (world s)
                                   (trace (after_enter "Starting" s))))))).
  { destruct start_in_greenlet.
    - cbn. auto.
    - apply start_loop_preserves. cbn. auto. }
  destruct ((if start_in_greenlet then spawn_greenlet (_spawn_start fuel)
          else _start_loop fuel) _)
    as [[[] | e | why] s']; cbn [snd] in *; auto.
  destruct (is_Exception e); cbn [snd after_exit self]; auto.
Qed.

Lemma stop_preserves s :
  P (self s) -> P (self (snd (stop s))).
Proof.
  intros HP. rewrite stop_unfold.
  pose proof (P_stop (flags_cleared (self s)) (world s)) as HP'.
  destruct (_stop (flags_cleared (self s)) (world s)) as [[r c'] w'].
  cbn [fst snd after_exit self] in *. apply HP'.
  unfold flags_cleared. auto.
Qed.

Lemma restart_preserves fuel s :
  P (self s) -> P (self (snd (restart fuel s))).
Proof.
  intros HP. unfold restart, bind.
  pose proof (stop_preserves s HP) as HP'.
  destruct (stop s) as [[[] | e | why] s']; cbn [snd] in *; auto.
  apply start_preserves. exact HP'.
Qed.

End Preservation.

Section Edit.

Context {W : Type} {cls : Connector.Subclass W}.

Import Connector.

(** [edit]: under the lock, the new name and config, then the restart. *)
Lemma edit_unfold fuel old_name cfg s :
  edit fuel old_name cfg s
  = match restart fuel (mkstate (edited cfg (self s)) (world s) (trace s)) with
    | (Ret _, s') => (Ret tt, after_release s')
    | (Raise e, s') => (Raise e, after_release s')
    | (Abort why, s') => (Abort why, s')
    end.
Proof.
  destruct s as [c w tr].
  cbv [edit with_lock with_ _edit bind update modify gets edited after_release
       self world trace].
  destruct (restart fuel _) as [[[] | e | why] s']; reflexivity.
Qed.

Variable P : t -> Prop.

Hypothesis P_lock : forall c l, P c -> P (set_lock l c).
Hypothesis P_keep_running : forall c b, P c -> P (set_keep_running b c).
Hypothesis P_keep_connecting : forall c, P c -> P (set_keep_connecting false c).
Hypothesis P_start : forall c w, P c -> P (snd (fst (_start c w))).
Hypothesis P_stop : forall c w, P c -> P (snd (fst (_stop c w))).

Lemma edit_preserves fuel old_name cfg s :
  P (edited cfg (self s)) ->
  P (self (snd (edit fuel old_name cfg s))).
Proof.
  intros HP. rewrite edit_unfold.
  pose proof (restart_preserves P P_keep_running P_keep_connecting P_start P_stop
                fuel (mkstate (edited cfg (self s)) (world s) (trace s)) HP) as HP'.
  destruct (restart fuel _) as [[[] | e | why] s']; cbn [snd after_release self] in *;
    auto.
Qed.

End Edit.

(** ** Inactive connectors *)

Section Inactive_facts.

Context {W : Type} {cls : Connector.Subclass W}.

Import Connector.

(** [is_inactive] is computed in [__init__] and nowhere else: [start],
    [stop], [restart] and [edit] leave it as they find it, whatever the
    config they are given, when the hooks do. *)
Lemma edit_keeps_is_inactive fuel old_name cfg s :
  keeps is_inactive _start ->
  keeps is_inactive _stop ->
  is_inactive (self (snd (edit fuel old_name cfg s))) = is_inactive (self s).
Proof.
  intros Hstart Hstop.
  set (P := fun c : t => is_inactive c = is_inactive (self s)).
  apply (edit_preserves P).
  - intros c l HP; exact HP.
  - intros c b HP; exact HP.
  - intros c HP; exact HP.
  - intros c w HP; unfold P in *; rewrite Hstart; exact HP.
  - intros c w HP; unfold P in *; rewrite Hstop; exact HP.
  - reflexivity.
Qed.

Lemma start_keeps_is_inactive fuel s :
  keeps is_inactive _start ->
  is_inactive (self (snd (start fuel s))) = is_inactive (self s).
Proof.
  intros Hstart.
  set (P := fun c : t => is_inactive c = is_inactive (self s)).
  apply (start_preserves P).
  - intros c b HP; exact HP.
  - intros c HP; exact HP.
  - intros c w HP; unfold P in *; rewrite Hstart; exact HP.
  - reflexivity.
Qed.

End Inactive_facts.

(** C2 (amended). A connector built from a config with [is_active] false
    rejects every [send] with the [Inactive] exception, without entering the
    [_send] hook and without any change of state, and it still does after a
    [start] when the connect hook leaves [is_inactive] alone. [start] does not
    look at the flag: the synchronous variant enters the connect hook right
    after the "Starting" line, as for an active connector, and the greenlet
    variant dispatches the loop. *)
Theorem C2_inactive_rejects_send_start_still_connects
    {W : Type} (cls : Connector.Subclass W)
    (name type : string) (cfg : Config.t)
    (on_message_callback auth_func : option Connector.callback)
    (w : W) (tr : list event) :
  Config.is_active cfg = false ->
  let c := Connector.__init__ name type cfg on_message_callback auth_func in
  let s := Connector.mkstate c w tr in
  (forall m,
     Connector.send m s = (Raise (Inactive (inactive_message c)), s)) /\
  (keeps Connector.is_inactive Connector._start ->
   forall fuel m,
     let s' := snd (Connector.start fuel s) in
     Connector.send m s'
     = (Raise (Inactive (inactive_message (Connector.self s'))), s')) /\
  (Connector.start_in_greenlet = false ->
   forall fuel, exists tr',
     Connector.trace (snd (Connector.start (S (S fuel)) s))
     = Connector.trace (after_enter "Starting" s) ++ EvCall H_start :: tr') /\
  (Connector.start_in_greenlet = true ->
   forall fuel, exists tr',
     Connector.start fuel s
     = (Ret tt,
        Connector.mkstate (Connector.set_keep_running true c) w
          (Connector.trace (after_enter "Starting" s) ++ EvSpawn :: tr'))).
Proof.
  intros Hcfg c s. repeat split.
  - intros m. rewrite send_unfold. subst s c. cbn [Connector.self Connector.__init__
      Connector.is_inactive]. rewrite Hcfg. reflexivity.
  - intros Hkeep fuel m s'. rewrite send_unfold.
    unfold s'. rewrite (start_keeps_is_inactive fuel s Hkeep).
    subst s c. cbn [Connector.self Connector.__init__ Connector.is_inactive].
    rewrite Hcfg. reflexivity.
  - intros Hsync fuel. rewrite start_unfold, Hsync.
    destruct (start_loop_first_call fuel
                (Connector.mkstate (Connector.set_keep_running true c) w
                   (Connector.trace (after_enter "Starting" s)))
                eq_refl eq_refl) as (tr' & Htr).
    cbn [Connector.self Connector.world] in *.
    destruct (Connector._start_loop (S (S fuel)) _) as [[[] | e | why] s'];
      cbn [snd Connector.trace] in Htr.
    + exists (tr' ++ [EvLog INFO
                        (StartStopInfo " Started" (Connector.type (Connector.self s'))
                           (Connector.name (Connector.self s'))
                           (exit_suffix " Started" s'))]).
      cbn [snd after_exit Connector.trace]. rewrite Htr, <- app_assoc. reflexivity.
    + destruct (is_Exception e); cbn [snd after_exit Connector.trace Connector.self
                                       Connector.world];
        rewrite Htr, <- !app_assoc; cbn [app]; eexists; reflexivity.
    + cbn [snd]. rewrite Htr. eexists; reflexivity.
  - intros Hgreen fuel. rewrite start_unfold, Hgreen.
    cbv [Connector.spawn_greenlet Connector.emit modify after_exit].
    cbn [Connector.self Connector.world Connector.trace].
    rewrite <- app_assoc. cbn [app]. eexists; reflexivity.
Qed.

(** An inactive connector with a hook that connects at once. *)
Lemma C2_witness :
  let c := fresh_connector cfg_inactive in
  let s := Connector.mkstate c [Connects] [] in
  (forall m,
     Connector.send (cls := Scripted) m s = (Raise (Inactive (inactive_message c)), s)) /\
  (exists tr',
     Connector.trace (snd (Connector.start (cls := Scripted) 2 s))
     = Connector.trace (after_enter "Starting" s)
       ++ EvCall H_start :: tr').
Proof.
  destruct (C2_inactive_rejects_send_start_still_connects Scripted
              "out1" "ZeroMQ outgoing" cfg_inactive None None [Connects] [] eq_refl)
    as (Hsend & _ & Hstart & _).
  split.
  - exact Hsend.
  - exact (Hstart eq_refl 0).
Defined.

(** C2 as stated fails: started, a connector built from an inactive config
    enters the connect hook and connects. *)
Lemma C2_counterexample :
  let s := snd (run (Connector.start (cls := Scripted) 5) cfg_inactive [Connects]) in
  Config.is_active cfg_inactive = false /\
  Connector.is_inactive (Connector.self s) = true /\
  connect_count (Connector.trace s) = 1 /\
  ~ connect_count (Connector.trace s) = 0 /\
  Connector.is_connected (Connector.self s) = true.
Proof. vm_compute. repeat split. discriminate. Qed.

(** C3. The code at the failing input: a connector built from an active
    config and then edited with a config whose [is_active] is false holds
    that config, and its [send] enters the [_send] hook all the same, since
    [is_inactive] still has the value [__init__] gave it; dually, a connector
    built inactive and edited with an active config goes on rejecting. *)
Theorem C3_edit_leaves_is_inactive_stale :
  let deactivated :=
    snd (run (Connector.edit (cls := Scripted) 5 "out1" cfg_inactive) cfg_active []) in
  let activated :=
    snd (run (Connector.edit (cls := Scripted) 5 "out1" cfg_active) cfg_inactive []) in
  Config.is_active (Connector.config (Connector.self deactivated)) = false /\
  fst (Connector.send (cls := Scripted) "ping" deactivated) = Ret tt /\
  count is_send_call
    (Connector.trace (snd (Connector.send (cls := Scripted) "ping" deactivated))) = 1 /\
  Config.is_active (Connector.config (Connector.self activated)) = true /\
  fst (Connector.send (cls := Scripted) "ping" activated)
  = Raise (Inactive "Connection `out1` is inactive (ZeroMQ outgoing)").
Proof. vm_compute. repeat split. Qed.

(** ** Exceptions in the [start] and [stop] brackets *)

Section Brackets.

Context {W : Type} {cls : Connector.Subclass W}.

Import Connector.

(** What [start] raises is neither an [Exception] nor a
    [KeyboardInterrupt], and it was raised by the connect hook. *)
Lemma start_raises fuel s e :
  fst (start fuel s) = Raise e ->
  is_Exception e = false /\ is_KeyboardInterrupt e = false /\
  exists c w, fst (fst (_start c w)) = Some e.
Proof.
  rewrite start_unfold.
  destruct start_in_greenlet.
  - cbn. discriminate.
  - pose proof (start_loop_raises fuel
                  (mkstate (set_keep_running true (self s)) (world s)
                     (trace (after_enter "Starting" s)))) as Hloop.
    destruct (_start_loop fuel _) as [[[] | e' | why] s']; cbn [fst] in *.
    + discriminate.
    + destruct (Hloop e' eq_refl) as (He' & Hki & Hh).
      rewrite He'. cbn [fst]. intros [= ->]. auto.
    + discriminate.
Qed.

Lemma stop_outcome s :
  fst (stop s) = outcome_of (fst (fst (_stop (flags_cleared (self s)) (world s)))).
Proof.
  rewrite stop_unfold.
  destruct (_stop (flags_cleared (self s)) (world s)) as [[r c'] w']. reflexivity.
Qed.

Lemma stop_self s :
  self (snd (stop s)) = snd (fst (_stop (flags_cleared (self s)) (world s))).
Proof.
  rewrite stop_unfold.
  destruct (_stop (flags_cleared (self s)) (world s)) as [[r c'] w']. reflexivity.
Qed.

Lemma stop_trace s :
  trace (snd (stop s))
  = trace (after_enter "Stopping" s)
    ++ [EvCall H_stop;
        EvLog INFO (StartStopInfo " Stopped" (type (self (snd (stop s))))
                      (name (self (snd (stop s))))
                      (exit_suffix " Stopped" (snd (stop s))))].
Proof.
  rewrite stop_unfold.
  destruct (_stop (flags_cleared (self s)) (world s)) as [[r c'] w'].
  cbn [snd after_exit trace self world exit_suffix].
  rewrite <- app_assoc. reflexivity.
Qed.

End Brackets.

(** C4 (amended). Inside [start], an [Exception] raised by the connect hook
    is caught in the loop and logged at warn level, and a [KeyboardInterrupt]
    ends the loop; what [start] lets out is only what the connect hook raised
    outside [Exception] and [KeyboardInterrupt]. So, against a hook that
    raises nothing of that kind, [start] never raises: it returns normally once
    its loop exits or is dispatched, and always in the greenlet variant.
    [stop] returns normally when the [_stop] hook does. *)
Theorem C4_start_swallows_exceptions
    {W : Type} (cls : Connector.Subclass W) :
  (forall n c w tr e c' w',
     Connector._start c w = (Some e, c', w') ->
     is_Exception e = true ->
     fst (Connector._start_loop_inner_body n (Connector.mkstate c w tr)) = Ret (n + 1) /\
     In (EvLog WARN (Traceback e))
        (Connector.trace
           (snd (Connector._start_loop_inner_body n (Connector.mkstate c w tr))))) /\
  (forall fuel s e,
     fst (Connector.start fuel s) = Raise e ->
     is_Exception e = false /\ is_KeyboardInterrupt e = false /\
     exists c w, fst (fst (Connector._start c w)) = Some e) /\
  (raises_no_other_base Connector._start ->
   forall fuel s e, fst (Connector.start fuel s) <> Raise e) /\
  (Connector.start_in_greenlet = true ->
   forall fuel s, fst (Connector.start fuel s) = Ret tt) /\
  (forall s,
     fst (fst (Connector._stop (flags_cleared (Connector.self s)) (Connector.world s)))
     = None ->
     fst (Connector.stop s) = Ret tt).
Proof.
  split; [| split; [| split; [| split]]].
  - intros n c w tr e c' w' Hh He.
    rewrite (attempt_raising _ _ _ _ _ _ _ Hh He). split; [reflexivity |].
    cbn [snd Connector.trace].
    rewrite !in_app_iff. left. left. right. left. reflexivity.
  - apply start_raises.
  - intros Hbase fuel s e Hraise.
    destruct (start_raises fuel s e Hraise) as (He & Hki & c & w & Hh).
    destruct (Hbase c w e Hh) as [He' | ->].
    + congruence.
    + discriminate.
  - intros Hgreen fuel s. rewrite start_unfold, Hgreen. reflexivity.
  - intros s Hret. rewrite stop_outcome, Hret. reflexivity.
Qed.

(** [Connector] itself: its [_start] raises [NotImplementedError] at every
    attempt, and its [_stop] does nothing. *)
Lemma C4_witness :
  let s := Connector.mkstate (fresh_connector cfg_active) ([] : list attempt) [] in
  fst (Connector.start (cls := Connector.Base (list attempt)) 3 s)
  <> Raise (NotImplementedError "Must be implemented in subclasses") /\
  fst (Connector.stop (cls := Connector.Base (list attempt)) s) = Ret tt.
Proof.
  assert (Hbase : raises_no_other_base
                    (Connector._start (Subclass := Connector.Base (list attempt)))).
  { intros c w e. simpl. intros [= <-]. left. reflexivity. }
  destruct (C4_start_swallows_exceptions (Connector.Base (list attempt)))
    as (_ & _ & Hstart & _ & Hstop).
  split.
  - apply Hstart. exact Hbase.
  - apply Hstop. reflexivity.
Defined.

(** C4 as stated fails. A [GreenletExit] raised by the connect hook is not an
    [Exception]: no handler of [start] takes it and it reaches the caller of
    [start]. And when the [_stop] hook raises, [stop] does not return
    normally: the exception reaches the caller, after the flags were cleared
    and the "Stopped" line was logged. *)
Lemma C4_counterexample :
  let killed :=
    run (Connector.start (cls := Scripted) 5) cfg_active
      [Fails_raising (OtherBaseException "GreenletExit")] in
  let stopped := run (Connector.stop (cls := Failing_stop)) cfg_active [] in
  fst killed = Raise (OtherBaseException "GreenletExit") /\
  fst killed <> Ret tt /\
  warn_count (Connector.trace (snd killed)) = 0 /\
  fst stopped = Raise (OtherException "socket.error") /\
  fst stopped <> Ret tt /\
  Connector.keep_running (Connector.self (snd stopped)) = false /\
  warn_count (Connector.trace (snd stopped)) = 0.
Proof. vm_compute. repeat split; discriminate. Qed.

(** ** The state after [stop] *)

(** C5 (amended). After [stop], [keep_running] and [keep_connecting] are
    false. [stop] itself does not assign [is_connected]: after it, the flag
    is what the [_stop] hook leaves, so with a hook that leaves the three
    flags alone, as the default one does, a connected connector is still
    [is_connected] after [stop]. *)
Theorem C5_stop_clears_flags_not_is_connected
    {W : Type} (cls : Connector.Subclass W) (s : Connector.state W) :
  keeps Connector.keep_running Connector._stop ->
  keeps Connector.keep_connecting Connector._stop ->
  keeps Connector.is_connected Connector._stop ->
  Connector.keep_running (Connector.self (snd (Connector.stop s))) = false /\
  Connector.keep_connecting (Connector.self (snd (Connector.stop s))) = false /\
  Connector.is_connected (Connector.self (snd (Connector.stop s)))
  = Connector.is_connected (Connector.self s).
Proof.
  intros Hrun Hconn Hisc. rewrite stop_self.
  rewrite Hrun, Hconn, Hisc. repeat split.
Qed.

(** A connector that connected at its first attempt, then stopped. *)
Lemma C5_witness :
  let s := snd (run (Connector.start (cls := Scripted) 5) cfg_active [Connects]) in
  Connector.keep_running (Connector.self (snd (Connector.stop (cls := Scripted) s))) = false /\
  Connector.keep_connecting (Connector.self (snd (Connector.stop (cls := Scripted) s))) = false /\
  Connector.is_connected (Connector.self (snd (Connector.stop (cls := Scripted) s)))
  = Connector.is_connected (Connector.self s).
Proof.
  apply (C5_stop_clears_flags_not_is_connected Scripted).
  - intros c w. reflexivity.
  - intros c w. reflexivity.
  - intros c w. reflexivity.
Defined.

(** C5 as stated fails: a connector that connected and is then stopped is
    not running and still [is_connected]. *)
Lemma C5_counterexample :
  let r := run (Connector.start (cls := Scripted) 5 ;; Connector.stop (cls := Scripted))
             cfg_active [Connects] in
  fst r = Ret tt /\
  Connector.keep_running (Connector.self (snd r)) = false /\
  Connector.is_connected (Connector.self (snd r)) = true /\
  Connector.is_connected (Connector.self (snd r)) <> false.
Proof. vm_compute. repeat split. discriminate. Qed.

(** ** [keep_connecting] *)

Section Keep_connecting.

Context {W : Type} {cls : Connector.Subclass W}.

Import Connector.

Hypothesis start_hook : never_sets keep_connecting _start.
Hypothesis stop_hook : never_sets keep_connecting _stop.

Lemma stop_clears_keep_connecting s :
  keep_connecting (self (snd (stop s))) = false.
Proof. rewrite stop_self. apply stop_hook. reflexivity. Qed.

Lemma start_never_sets_keep_connecting fuel s :
  keep_connecting (self s) = false ->
  keep_connecting (self (snd (start fuel s))) = false.
Proof.
  apply (start_preserves (fun c => keep_connecting c = false)).
  - intros c b HP; exact HP.
  - intros c HP; reflexivity.
  - intros c w HP. apply start_hook. exact HP.
Qed.

Lemma restart_clears_keep_connecting fuel s :
  keep_connecting (self (snd (restart fuel s))) = false.
Proof.
  unfold restart, bind.
  pose proof (stop_clears_keep_connecting s) as Hstop.
  destruct (stop s) as [[[] | e | why] s']; cbn [snd] in *; auto.
  apply start_never_sets_keep_connecting. exact Hstop.
Qed.

Lemma edit_clears_keep_connecting fuel old_name cfg s :
  keep_connecting (self (snd (edit fuel old_name cfg s))) = false.
Proof.
  rewrite edit_unfold.
  pose proof (restart_clears_keep_connecting fuel
                (mkstate (edited cfg (self s)) (world s) (trace s))) as Hre.
  destruct (restart fuel _) as [[[] | e | why] s']; cbn [snd after_release self] in *;
    exact Hre.
Qed.

(** With [keep_connecting] false, [start] returns at once: the two lines of
    the bracket, the dispatch in the greenlet variant, and no attempt. *)
Lemma start_without_connecting fuel s :
  keep_connecting (self s) = false ->
  start (S fuel) s
  = (Ret tt,
     after_exit " Started"
       (mkstate (set_keep_running true (self s)) (world s)
          (trace (after_enter "Starting" s)
           ++ (if start_in_greenlet then [EvSpawn] else [])))).
Proof.
  intros Hk. rewrite start_unfold.
  destruct start_in_greenlet.
  - reflexivity.
  - rewrite start_loop_not_entered by exact Hk.
    rewrite app_nil_r. reflexivity.
Qed.

Lemma start_without_connecting_calls fuel s :
  keep_connecting (self s) = false ->
  connect_count (trace (snd (start (S fuel) s))) = connect_count (trace s).
Proof.
  intros Hk. rewrite (start_without_connecting fuel s Hk).
  cbn [snd after_exit after_enter trace].
  unfold connect_count. rewrite !count_app.
  destruct start_in_greenlet; cbn; lia.
Qed.

Lemma restart_without_connecting fuel s :
  fst (restart (S fuel) s) = fst (stop s) /\
  connect_count (trace (snd (restart (S fuel) s))) = connect_count (trace s).
Proof.
  unfold restart, bind.
  pose proof (stop_clears_keep_connecting s) as Hk.
  pose proof (stop_trace s) as Htr.
  pose proof (stop_outcome s) as Hout.
  assert (Hcount : connect_count (trace (snd (stop s))) = connect_count (trace s)).
  { rewrite Htr. unfold connect_count, after_enter. cbn [trace].
    rewrite !count_app. cbn. lia. }
  destruct (stop s) as [[[] | e | why] s']; cbn [fst snd] in *.
  - rewrite (start_without_connecting fuel s' Hk). cbn [fst snd].
    split; [reflexivity |].
    rewrite <- Hcount.
    cbn [after_exit after_enter trace self world].
    unfold connect_count. rewrite !count_app.
    destruct start_in_greenlet; cbn; lia.
  - split; [reflexivity | exact Hcount].
  - destruct (fst (fst (_stop (flags_cleared (self s)) (world s)))); discriminate.
Qed.

End Keep_connecting.

(** C6. [keep_connecting] is true as [__init__] leaves it, and no operation
    sets it again: where the hooks do not, it is false after every [stop],
    [restart] and [edit], false after every synchronous [start] that returned,
    and still false after a [start] that found it false. Once it is false, a
    [start] returns with no connect attempt, the dispatched loop of the
    greenlet variant returns at once too, and a [restart] makes no connect
    attempt either and ends as its [stop] does. *)
Theorem C6_keep_connecting_never_set_again
    {W : Type} (cls : Connector.Subclass W) :
  never_sets Connector.keep_connecting Connector._start ->
  never_sets Connector.keep_connecting Connector._stop ->
  (forall name type cfg cb auth,
     Connector.keep_connecting (Connector.__init__ name type cfg cb auth) = true) /\
  (forall s, Connector.keep_connecting (Connector.self (snd (Connector.stop s))) = false) /\
  (forall fuel s,
     Connector.keep_connecting (Connector.self (snd (Connector.restart fuel s))) = false) /\
  (forall fuel old_name cfg s,
     Connector.keep_connecting
       (Connector.self (snd (Connector.edit fuel old_name cfg s))) = false) /\
  (Connector.start_in_greenlet = false ->
   forall fuel s,
     fst (Connector.start fuel s) = Ret tt ->
     Connector.keep_connecting (Connector.self (snd (Connector.start fuel s))) = false) /\
  (forall fuel s,
     Connector.keep_connecting (Connector.self s) = false ->
     Connector.keep_connecting (Connector.self (snd (Connector.start fuel s))) = false /\
     fst (Connector.start (S fuel) s) = Ret tt /\
     connect_count (Connector.trace (snd (Connector.start (S fuel) s)))
     = connect_count (Connector.trace s) /\
     Connector._start_loop (S fuel) s = (Ret tt, s) /\
     fst (Connector.restart (S fuel) s) = fst (Connector.stop s) /\
     connect_count (Connector.trace (snd (Connector.restart (S fuel) s)))
     = connect_count (Connector.trace s)).
Proof.
  intros Hstart Hstop.
  split; [reflexivity |].
  split; [apply stop_clears_keep_connecting; assumption |].
  split; [apply restart_clears_keep_connecting; assumption |].
  split; [apply edit_clears_keep_connecting; assumption |].
  split.
  - intros Hsync fuel s. rewrite start_unfold, Hsync.
    pose proof (start_loop_returns fuel
                  (Connector.mkstate (Connector.set_keep_running true (Connector.self s))
                     (Connector.world s)
                     (Connector.trace (after_enter "Starting" s)))) as Hret.
    pose proof (start_loop_raises fuel
                  (Connector.mkstate (Connector.set_keep_running true (Connector.self s))
                     (Connector.world s)
                     (Connector.trace (after_enter "Starting" s)))) as Hraise.
    destruct (Connector._start_loop fuel _) as [[[] | e | why] s']; cbn [fst snd] in *.
    + intros _. apply Hret. reflexivity.
    + destruct (Hraise e eq_refl) as (He & _). rewrite He. discriminate.
    + discriminate.
  - intros fuel s Hk.
    split; [apply start_never_sets_keep_connecting; assumption |].
    split; [rewrite (start_without_connecting fuel s Hk); reflexivity |].
    split; [apply start_without_connecting_calls; assumption |].
    split; [apply start_loop_not_entered; assumption |].
    apply restart_without_connecting; assumption.
Qed.

(** A connector that was stopped before it was ever started. *)
Lemma C6_witness :
  let s := snd (run (Connector.stop (cls := Scripted)) cfg_active [Connects]) in
  Connector.keep_connecting (Connector.self s) = false /\
  fst (Connector.start (cls := Scripted) 1 s) = Ret tt /\
  connect_count (Connector.trace (snd (Connector.start (cls := Scripted) 1 s)))
  = connect_count (Connector.trace s) /\
  fst (Connector.restart (cls := Scripted) 1 s) = Ret tt.
Proof.
  assert (Hstart : never_sets Connector.keep_connecting
                     (Connector._start (Subclass := Scripted))).
  { intros c w Hk. simpl. unfold scripted_start.
    destruct w as [| [e | |] w]; simpl; exact Hk. }
  assert (Hstop : never_sets Connector.keep_connecting
                    (Connector._stop (Subclass := Scripted))).
  { intros c w Hk. exact Hk. }
  destruct (C6_keep_connecting_never_set_again Scripted Hstart Hstop)
    as (_ & Hafter_stop & _ & _ & _ & Honce).
  intros s.
  destruct (Honce 0 s (Hafter_stop _)) as (_ & Hret & Hcalls & _ & Hrestart & _).
  split; [apply Hafter_stop |].
  split; [exact Hret |].
  split; [exact Hcalls |].
  rewrite Hrestart. reflexivity.
Defined.

(** ** [stop], twice *)

(** C9. With a [_stop] hook that returns and does not set the two flags, as
    the default one, [stop] never raises, whatever the state of the connector:
    not before any [start], on the connector as [__init__] leaves it, and not
    the second time in a row; and each time it leaves [keep_connecting] and
    [keep_running] false. *)
Theorem C9_stop_is_idempotent
    {W : Type} (cls : Connector.Subclass W) :
  never_raises Connector._stop ->
  never_sets Connector.keep_connecting Connector._stop ->
  never_sets Connector.keep_running Connector._stop ->
  (forall s,
     fst (Connector.stop s) = Ret tt /\
     Connector.keep_connecting (Connector.self (snd (Connector.stop s))) = false /\
     Connector.keep_running (Connector.self (snd (Connector.stop s))) = false) /\
  (forall s,
     fst ((Connector.stop ;; Connector.stop) s) = Ret tt /\
     Connector.keep_connecting
       (Connector.self (snd ((Connector.stop ;; Connector.stop) s))) = false /\
     Connector.keep_running
       (Connector.self (snd ((Connector.stop ;; Connector.stop) s))) = false) /\
  (forall name type cfg cb auth w tr,
     let s := Connector.mkstate (Connector.__init__ name type cfg cb auth) w tr in
     fst (Connector.stop s) = Ret tt /\
     Connector.keep_connecting (Connector.self (snd (Connector.stop s))) = false /\
     Connector.keep_running (Connector.self (snd (Connector.stop s))) = false).
Proof.
  intros Hret Hconn Hrun.
  assert (Hone : forall s,
            fst (Connector.stop s) = Ret tt /\
            Connector.keep_connecting (Connector.self (snd (Connector.stop s))) = false /\
            Connector.keep_running (Connector.self (snd (Connector.stop s))) = false).
  { intros s. rewrite stop_outcome, stop_self, Hret. repeat split.
    - apply Hconn. reflexivity.
    - apply Hrun. reflexivity. }
  split; [exact Hone |]. split.
  - intros s. unfold bind.
    destruct (Hone s) as (H1 & _ & _).
    destruct (Connector.stop s) as [[[] | e | why] s']; cbn [fst] in H1;
      try discriminate.
    apply Hone.
  - intros name type cfg cb auth w tr s. apply Hone.
Qed.

(** [Connector] itself, whose [_stop] does nothing, stopped twice before any
    [start]. *)
Lemma C9_witness :
  let s := Connector.mkstate (fresh_connector cfg_active) ([] : list attempt) [] in
  let twice :=
    (Connector.stop (cls := Connector.Base (list attempt)) ;;
     Connector.stop (cls := Connector.Base (list attempt))) s in
  fst twice = Ret tt /\
  Connector.keep_connecting (Connector.self (snd twice)) = false /\
  Connector.keep_running (Connector.self (snd twice)) = false.
Proof.
  destruct (C9_stop_is_idempotent (Connector.Base (list attempt)))
    as (_ & Htwice & _).
  - intros c w. reflexivity.
  - intros c w Hk. exact Hk.
  - intros c w Hk. exact Hk.
  - intros s twice. apply Htwice.
Defined.

(** ** The registry *)

Ltac store_cbn :=
  cbn [ConnectorStore.self ConnectorStore.heap ConnectorStore.world
       ConnectorStore.trace ConnectorStore.connectors ConnectorStore.lock
       ConnectorStore.set_lock ConnectorStore.set_connectors ConnectorStore.type].

Ltac store_unfold :=
  unfold ConnectorStore.edit, ConnectorStore.delete, ConnectorStore.with_lock, with_,
    ConnectorStore.delitem, ConnectorStore.pop, ConnectorStore.setitem,
    ConnectorStore.update, modify, ConnectorStore.getitem, ConnectorStore.on_object,
    bind, ret.

Section Store.

Context {W : Type} {cls : Connector.Subclass W}.

Lemma getitem_unfold name (s : ConnectorStore.state W) :
  ConnectorStore.getitem name s
  = match ConnectorStore.connectors (ConnectorStore.self s) !! name with
    | Some r => (Ret r, s)
    | None => (Raise (KeyError name), s)
    end.
Proof. reflexivity. Qed.

(** [create]: a new object under [name], whatever was there. *)
Lemma create_unfold name cfg cb auth (s : ConnectorStore.state W) :
  ConnectorStore.create name cfg cb auth s
  = let r := fresh (dom (ConnectorStore.heap s)) in
    let st := ConnectorStore.self s in
    (Ret tt,
     ConnectorStore.mkstate
       (ConnectorStore.set_connectors (<[name := r]> (ConnectorStore.connectors st)) st)
       (<[r := Connector.__init__ name (ConnectorStore.type st) cfg cb auth]>
          (ConnectorStore.heap s))
       (ConnectorStore.world s) (ConnectorStore.trace s)).
Proof.
  destruct s as [[ty conns lk] h w tr]. reflexivity.
Qed.

(** [edit] of a name the registry does not have. *)
Lemma edit_absent fuel old_name cfg (s : ConnectorStore.state W) :
  ConnectorStore.connectors (ConnectorStore.self s) !! old_name = None ->
  ConnectorStore.edit fuel old_name cfg s = (Raise (KeyError old_name), s).
Proof.
  intros Hnone. destruct s as [[ty conns lk] h w tr].
  cbn [ConnectorStore.self ConnectorStore.connectors] in Hnone.
  store_unfold. store_cbn. rewrite Hnone. reflexivity.
Qed.

(** [edit] of a name the registry has: the object is edited, and when that
    returns the entry moves to the new name. *)
Lemma edit_present fuel old_name cfg (s : ConnectorStore.state W) r c :
  ConnectorStore.connectors (ConnectorStore.self s) !! old_name = Some r ->
  ConnectorStore.heap s !! r = Some c ->
  ConnectorStore.edit fuel old_name cfg s
  = let st := ConnectorStore.self s in
    let '(res, cs) :=
      Connector.edit fuel old_name cfg
        (Connector.mkstate c (ConnectorStore.world s) (ConnectorStore.trace s)) in
    let h := <[r := Connector.self cs]> (ConnectorStore.heap s) in
    match res with
    | Ret _ =>
        (Ret tt,
         ConnectorStore.mkstate
           (ConnectorStore.set_connectors
              (<[Config.name cfg := r]> (delete old_name (ConnectorStore.connectors st)))
              st)
           h (Connector.world cs) (Connector.trace cs))
    | Raise e =>
        (Raise e, ConnectorStore.mkstate st h (Connector.world cs) (Connector.trace cs))
    | Abort why =>
        (Abort why,
         ConnectorStore.mkstate (ConnectorStore.set_lock (S (ConnectorStore.lock st)) st)
           h (Connector.world cs) (Connector.trace cs))
    end.
Proof.
  intros Hsome Hobj. destruct s as [[ty conns lk] h w tr].
  store_cbn. cbn [ConnectorStore.self ConnectorStore.heap ConnectorStore.connectors] in *.
  store_unfold. store_cbn. rewrite Hsome. store_cbn. rewrite Hobj.
  destruct (Connector.edit fuel old_name cfg _) as [[[] | e | why] cs];
    store_cbn; rewrite ?Hsome; reflexivity.
Qed.

Lemma delete_absent name (s : ConnectorStore.state W) :
  ConnectorStore.connectors (ConnectorStore.self s) !! name = None ->
  ConnectorStore.delete name s = (Raise (KeyError name), s).
Proof.
  intros Hnone. destruct s as [[ty conns lk] h w tr].
  cbn [ConnectorStore.self ConnectorStore.connectors] in Hnone.
  store_unfold. store_cbn. rewrite Hnone. reflexivity.
Qed.

(** [delete] of a name the registry has: the object is stopped, and when
    that returns the entry is removed. *)
Lemma delete_present name (s : ConnectorStore.state W) r c :
  ConnectorStore.connectors (ConnectorStore.self s) !! name = Some r ->
  ConnectorStore.heap s !! r = Some c ->
  ConnectorStore.delete name s
  = let st := ConnectorStore.self s in
    let '(res, cs) :=
      Connector.stop
        (Connector.mkstate c (ConnectorStore.world s) (ConnectorStore.trace s)) in
    let h := <[r := Connector.self cs]> (ConnectorStore.heap s) in
    match res with
    | Ret _ =>
        (Ret tt,
         ConnectorStore.mkstate
           (ConnectorStore.set_connectors (delete name (ConnectorStore.connectors st)) st)
           h (Connector.world cs) (Connector.trace cs))
    | Raise e =>
        (Raise e, ConnectorStore.mkstate st h (Connector.world cs) (Connector.trace cs))
    | Abort why =>
        (Abort why,
         ConnectorStore.mkstate (ConnectorStore.set_lock (S (ConnectorStore.lock st)) st)
           h (Connector.world cs) (Connector.trace cs))
    end.
Proof.
  intros Hsome Hobj. destruct s as [[ty conns lk] h w tr].
  store_cbn. cbn [ConnectorStore.self ConnectorStore.heap ConnectorStore.connectors] in *.
  store_unfold. store_cbn. rewrite Hsome. store_cbn. rewrite Hobj.
  destruct (Connector.stop _) as [[[] | e | why] cs];
    store_cbn; rewrite ?Hsome; reflexivity.
Qed.

Lemma invoke_absent name args (s : ConnectorStore.state W) :
  ConnectorStore.connectors (ConnectorStore.self s) !! name = None ->
  ConnectorStore.invoke name args s = (Raise (KeyError name), s).
Proof.
  intros Hnone. unfold ConnectorStore.invoke, bind, ConnectorStore.getitem.
  rewrite Hnone. reflexivity.
Qed.

End Store.

(** ** What [edit] of a connector leaves *)

Section Edit_facts.

Context {W : Type} {cls : Connector.Subclass W}.

Import Connector.

(** When the hooks leave [name] and [config] alone, the edited connector has
    the name of the new config and the new config, with the address of the
    old one as its [prev_address]. *)
Lemma edit_installs_config fuel old_name cfg s :
  keeps name _start -> keeps config _start ->
  keeps name _stop -> keeps config _stop ->
  name (self (snd (edit fuel old_name cfg s))) = Config.name cfg /\
  config (self (snd (edit fuel old_name cfg s)))
  = Config.set_prev_address (Config.address (config (self s))) cfg.
Proof.
  intros Hn1 Hc1 Hn2 Hc2.
  set (P := fun c : t =>
              name c = Config.name cfg /\
              config c = Config.set_prev_address (Config.address (config (self s))) cfg).
  apply (edit_preserves P).
  - intros c l HP; exact HP.
  - intros c b HP; exact HP.
  - intros c HP; exact HP.
  - intros c w [HPn HPc]. split; [rewrite Hn1 | rewrite Hc1]; assumption.
  - intros c w [HPn HPc]. split; [rewrite Hn2 | rewrite Hc2]; assumption.
  - split; reflexivity.
Qed.

(** [edit] returns when the [_stop] hook does and leaves [keep_connecting]
    false: the restart stops, and its [start] finds the loop closed. *)
Lemma edit_returns fuel old_name cfg s :
  never_raises _stop ->
  never_sets keep_connecting _stop ->
  fst (edit (S fuel) old_name cfg s) = Ret tt.
Proof.
  intros Hret Hk. rewrite edit_unfold.
  destruct (restart_without_connecting Hk fuel
              (mkstate (edited cfg (self s)) (world s) (trace s))) as [Hout _].
  rewrite stop_outcome, Hret in Hout.
  destruct (restart (S fuel) _) as [[[] | e | why] s']; cbn [fst] in *;
    try discriminate.
  reflexivity.
Qed.

End Edit_facts.

(** ** Properties of the registry *)

(** C7. In a store that has a connector under [old_name], an [edit] with a
    config of another name that returns leaves no entry under [old_name]
    (the lookup raises [KeyError]) and, under the new name, the very reference
    that was under [old_name]; the object behind it has the new name and the
    new config (with [prev_address] as [edit] writes it into that config),
    where the hooks leave the two alone. Such an [edit] does return when the
    [_stop] hook returns and leaves [keep_connecting] false. Without an entry
    under [old_name], [edit] raises [KeyError] and changes nothing. *)
Theorem C7_store_edit_renames
    {W : Type} (cls : Connector.Subclass W)
    (s : ConnectorStore.state W) (fuel : nat) (old_name : string) (cfg : Config.t) :
  keeps Connector.name Connector._start ->
  keeps Connector.config Connector._start ->
  keeps Connector.name Connector._stop ->
  keeps Connector.config Connector._stop ->
  (forall r c,
     ConnectorStore.connectors (ConnectorStore.self s) !! old_name = Some r ->
     ConnectorStore.heap s !! r = Some c ->
     Config.name cfg <> old_name ->
     (fst (ConnectorStore.edit fuel old_name cfg s) = Ret tt ->
      let s' := snd (ConnectorStore.edit fuel old_name cfg s) in
      ConnectorStore.getitem old_name s' = (Raise (KeyError old_name), s') /\
      ConnectorStore.getitem (Config.name cfg) s' = (Ret r, s') /\
      exists c',
        ConnectorStore.heap s' !! r = Some c' /\
        Connector.name c' = Config.name cfg /\
        Connector.config c'
        = Config.set_prev_address (Config.address (Connector.config c)) cfg) /\
     (never_raises Connector._stop ->
      never_sets Connector.keep_connecting Connector._stop ->
      fst (ConnectorStore.edit (S fuel) old_name cfg s) = Ret tt)) /\
  (ConnectorStore.connectors (ConnectorStore.self s) !! old_name = None ->
   ConnectorStore.edit fuel old_name cfg s = (Raise (KeyError old_name), s)).
Proof.
  intros Hn1 Hc1 Hn2 Hc2. split.
  - intros r c Hsome Hobj Hne. split.
    + rewrite (edit_present fuel old_name cfg s r c Hsome Hobj).
      pose proof (edit_installs_config fuel old_name cfg
                    (Connector.mkstate c (ConnectorStore.world s) (ConnectorStore.trace s))
                    Hn1 Hc1 Hn2 Hc2) as [Hname Hconfig].
      destruct (Connector.edit fuel old_name cfg _) as [[[] | e | why] cs];
        cbn [fst snd]; try discriminate.
      intros _. cbv zeta. rewrite !getitem_unfold. store_cbn.
      rewrite lookup_insert_ne by exact Hne.
      rewrite lookup_delete_eq, lookup_insert_eq.
      split; [reflexivity |]. split; [reflexivity |].
      exists (Connector.self cs). rewrite lookup_insert_eq.
      cbn [snd Connector.self] in *. auto.
    + intros Hret Hk.
      rewrite (edit_present (S fuel) old_name cfg s r c Hsome Hobj).
      pose proof (edit_returns fuel old_name cfg
                    (Connector.mkstate c (ConnectorStore.world s) (ConnectorStore.trace s))
                    Hret Hk) as Hout.
      destruct (Connector.edit (S fuel) old_name cfg _) as [[[] | e | why] cs];
        cbn [fst] in *; try discriminate.
      reflexivity.
  - apply edit_absent.
Qed.

Lemma scripted_start_keeps {A} (attr : Connector.t -> A) :
  (forall c, attr (Connector.set_is_connected true c) = attr c) ->
  keeps attr scripted_start.
Proof.
  intros Hattr c w. unfold scripted_start.
  destruct w as [| [e | |] w]; cbn [fst snd]; auto.
Qed.

(** The entry "out1" is renamed "out2". *)
Lemma C7_witness :
  let r := fresh (∅ : gset nat) in
  let s' := snd (ConnectorStore.edit (cls := Scripted) 1 "out1" cfg_renamed one_connector) in
  ConnectorStore.getitem "out1" s' = (Raise (KeyError "out1"), s') /\
  ConnectorStore.getitem (Config.name cfg_renamed) s' = (Ret r, s') /\
  exists c',
    ConnectorStore.heap s' !! r = Some c' /\
    Connector.name c' = Config.name cfg_renamed /\
    Connector.config c'
    = Config.set_prev_address
        (Config.address (Connector.config (fresh_connector cfg_active))) cfg_renamed.
Proof.
  intros r.
  assert (Hstart_name : keeps Connector.name (Connector._start (Subclass := Scripted))).
  { apply scripted_start_keeps. reflexivity. }
  assert (Hstart_config : keeps Connector.config (Connector._start (Subclass := Scripted))).
  { apply scripted_start_keeps. reflexivity. }
  assert (Hstop_name : keeps Connector.name (Connector._stop (Subclass := Scripted))).
  { intros c w. reflexivity. }
  assert (Hstop_config : keeps Connector.config (Connector._stop (Subclass := Scripted))).
  { intros c w. reflexivity. }
  assert (Hentry : ConnectorStore.connectors (ConnectorStore.self one_connector) !! "out1"
                   = Some r).
  { vm_compute. reflexivity. }
  assert (Hobject : ConnectorStore.heap one_connector !! r
                    = Some (fresh_connector cfg_active)).
  { vm_compute. reflexivity. }
  assert (Hother : Config.name cfg_renamed <> "out1").
  { simpl. discriminate. }
  destruct (C7_store_edit_renames Scripted one_connector 1 "out1" cfg_renamed
              Hstart_name Hstart_config Hstop_name Hstop_config) as [Hpresent _].
  destruct (Hpresent r (fresh_connector cfg_active) Hentry Hobject Hother) as [Hpost _].
  destruct (C7_store_edit_renames Scripted one_connector 0 "out1" cfg_renamed
              Hstart_name Hstart_config Hstop_name Hstop_config) as [Hpresent0 _].
  destruct (Hpresent0 r (fresh_connector cfg_active) Hentry Hobject Hother) as [_ Hret].
  apply Hpost. apply Hret.
  - intros c w. reflexivity.
  - intros c w Hk. exact Hk.
Defined.

(** C8. For a name the registry does not have, [delete] and [invoke] raise
    [KeyError] at once and change nothing. For a name it has, [delete] stops
    the connector behind it, and when that [stop] returns (its [_stop] hook
    does not raise), [delete] returns with the entry removed, so that [invoke]
    of the name then raises [KeyError]. *)
Theorem C8_delete_and_invoke_by_name
    {W : Type} (cls : Connector.Subclass W)
    (s : ConnectorStore.state W) (name : string) :
  (ConnectorStore.connectors (ConnectorStore.self s) !! name = None ->
   ConnectorStore.delete name s = (Raise (KeyError name), s) /\
   forall args, ConnectorStore.invoke name args s = (Raise (KeyError name), s)) /\
  (forall r c,
     ConnectorStore.connectors (ConnectorStore.self s) !! name = Some r ->
     ConnectorStore.heap s !! r = Some c ->
     fst (fst (Connector._stop (flags_cleared c) (ConnectorStore.world s))) = None ->
     let stopped :=
       snd (Connector.stop (Connector.mkstate c (ConnectorStore.world s)
                              (ConnectorStore.trace s))) in
     let s' := snd (ConnectorStore.delete name s) in
     fst (ConnectorStore.delete name s) = Ret tt /\
     ConnectorStore.heap s' !! r = Some (Connector.self stopped) /\
     Connector.self stopped
     = snd (fst (Connector._stop (flags_cleared c) (ConnectorStore.world s))) /\
     ConnectorStore.connectors (ConnectorStore.self s')
     = delete name (ConnectorStore.connectors (ConnectorStore.self s)) /\
     forall args, ConnectorStore.invoke name args s' = (Raise (KeyError name), s')).
Proof.
  split.
  - intros Hnone. split.
    + apply delete_absent. exact Hnone.
    + intros args. apply invoke_absent. exact Hnone.
  - intros r c Hsome Hobj Hret. cbv zeta.
    rewrite (delete_present name s r c Hsome Hobj).
    pose proof (stop_outcome (Connector.mkstate c (ConnectorStore.world s)
                                (ConnectorStore.trace s))) as Hout.
    pose proof (stop_self (Connector.mkstate c (ConnectorStore.world s)
                             (ConnectorStore.trace s))) as Hself.
    cbn [Connector.self Connector.world] in Hout. rewrite Hret in Hout.
    destruct (Connector.stop _) as [[[] | e | why] cs]; cbn [fst snd] in *;
      try discriminate.
    store_cbn.
    split; [reflexivity |].
    split; [apply lookup_insert_eq |].
    split; [exact Hself |].
    split; [reflexivity |].
    intros args. apply invoke_absent. store_cbn. apply lookup_delete_eq.
Qed.

(** The only entry of a store is deleted. *)
Lemma C8_witness :
  let r := fresh (∅ : gset nat) in
  let s' := snd (ConnectorStore.delete (cls := Scripted) "out1" one_connector) in
  fst (ConnectorStore.delete (cls := Scripted) "out1" one_connector) = Ret tt /\
  ConnectorStore.connectors (ConnectorStore.self s')
  = delete "out1" (ConnectorStore.connectors (ConnectorStore.self one_connector)) /\
  ConnectorStore.invoke (cls := Scripted) "out1" [] s' = (Raise (KeyError "out1"), s') /\
  ConnectorStore.delete (cls := Scripted) "out2" one_connector
  = (Raise (KeyError "out2"), one_connector).
Proof.
  intros r.
  destruct (C8_delete_and_invoke_by_name Scripted one_connector "out1") as [_ Hpresent].
  destruct (C8_delete_and_invoke_by_name Scripted one_connector "out2") as [Habsent _].
  assert (Hentry : ConnectorStore.connectors (ConnectorStore.self one_connector) !! "out1"
                   = Some r).
  { vm_compute. reflexivity. }
  assert (Hobject : ConnectorStore.heap one_connector !! r
                    = Some (fresh_connector cfg_active)).
  { vm_compute. reflexivity. }
  assert (Hnone : ConnectorStore.connectors (ConnectorStore.self one_connector) !! "out2"
                  = None).
  { vm_compute. reflexivity. }
  destruct (Hpresent r (fresh_connector cfg_active) Hentry Hobject eq_refl)
    as (Hret & _ & _ & Hconns & Hinvoke).
  destruct (Habsent Hnone) as [Hdelete _].
  intros s'.
  split; [exact Hret |].
  split; [exact Hconns |].
  split; [apply Hinvoke |].
  exact Hdelete.
Defined.

(** C10. [create] always returns: it constructs a connector from its
    arguments and the type of the store, under a reference that no object
    had, and puts that reference under [name], whatever was under [name]
    before; the other entries, the objects that existed, the lock, the world
    and the trace are as they were. *)
Theorem C10_create_inserts_or_overwrites
    {W : Type} (s : ConnectorStore.state W)
    (name : string) (cfg : Config.t)
    (on_message_callback auth_func : option Connector.callback) :
  let r := fresh (dom (ConnectorStore.heap s)) in
  let c := Connector.__init__ name (ConnectorStore.type (ConnectorStore.self s)) cfg
             on_message_callback auth_func in
  let s' := snd (ConnectorStore.create name cfg on_message_callback auth_func s) in
  fst (ConnectorStore.create name cfg on_message_callback auth_func s) = Ret tt /\
  ConnectorStore.heap s !! r = None /\
  ConnectorStore.getitem name s' = (Ret r, s') /\
  ConnectorStore.heap s' !! r = Some c /\
  ConnectorStore.connectors (ConnectorStore.self s')
  = <[name := r]> (ConnectorStore.connectors (ConnectorStore.self s)) /\
  ConnectorStore.heap s' = <[r := c]> (ConnectorStore.heap s) /\
  ConnectorStore.lock (ConnectorStore.self s') = ConnectorStore.lock (ConnectorStore.self s) /\
  ConnectorStore.world s' = ConnectorStore.world s /\
  ConnectorStore.trace s' = ConnectorStore.trace s.
Proof.
  cbv zeta. rewrite create_unfold. cbn [fst snd]. rewrite getitem_unfold. store_cbn.
  rewrite !lookup_insert_eq.
  repeat split.
  apply not_elem_of_dom. apply is_fresh.
Qed.

(** Two connectors created under one name: the second replaces the first in
    the registry, and both objects exist. *)
Example create_twice :
  let s1 := snd (ConnectorStore.create "out1" cfg_active None None empty_store) in
  let s2 := snd (ConnectorStore.create "out1" cfg_inactive None None s1) in
  ConnectorStore.connectors (ConnectorStore.self s1) !! "out1" = Some 0 /\
  ConnectorStore.connectors (ConnectorStore.self s2) !! "out1" = Some 1 /\
  Connector.is_active <$> ConnectorStore.heap s2 !! 0 = Some true /\
  Connector.is_active <$> ConnectorStore.heap s2 !! 1 = Some false /\
  size (ConnectorStore.connectors (ConnectorStore.self s2)) = 1.
Proof. vm_compute. repeat split. Qed.

(** ** The store at work *)

(** [start] without a name starts every connector of the store; with the
    name of none of them it starts none. *)
Example store_start :
  let s := ConnectorStore.mkstate (ConnectorStore.self one_connector)
             (ConnectorStore.heap one_connector) [Connects] [] in
  let all := ConnectorStore.start (cls := Scripted) 5 None s in
  let other := ConnectorStore.start (cls := Scripted) 5 (Some "out9") s in
  fst all = Ret tt /\
  Connector.is_connected <$> ConnectorStore.heap (snd all) !! 0 = Some true /\
  ConnectorStore.lock (ConnectorStore.self (snd all)) = 0 /\
  fst other = Ret tt /\
  Connector.is_connected <$> ConnectorStore.heap (snd other) !! 0 = Some false /\
  connect_count (ConnectorStore.trace (snd other)) = 0.
Proof. vm_compute. repeat split. Qed.

(** When the [_stop] hook of the connector raises, [delete] raises the same
    and the entry stays, with the flags of the object cleared; and [edit]
    raises with the object renamed and its entry still under the old name. *)
Example store_with_failing_stop :
  let deleted := ConnectorStore.delete (cls := Failing_stop) "out1" one_connector in
  let edited := ConnectorStore.edit (cls := Failing_stop) 1 "out1" cfg_renamed
                  one_connector in
  fst deleted = Raise (OtherException "socket.error") /\
  ConnectorStore.connectors (ConnectorStore.self (snd deleted)) !! "out1" = Some 0 /\
  Connector.keep_connecting <$> ConnectorStore.heap (snd deleted) !! 0 = Some false /\
  ConnectorStore.lock (ConnectorStore.self (snd deleted)) = 0 /\
  fst edited = Raise (OtherException "socket.error") /\
  ConnectorStore.connectors (ConnectorStore.self (snd edited)) !! "out1" = Some 0 /\
  ConnectorStore.connectors (ConnectorStore.self (snd edited)) !! "out2" = None /\
  Connector.name <$> ConnectorStore.heap (snd edited) !! 0 = Some "out2".
Proof. vm_compute. repeat split. Qed.

(** A connector that starts in a greenlet: [start] returns at once, the loop
    is dispatched, and no attempt was made by the time [start] returns. *)
Example start_in_greenlet_dispatches :
  let r := run (Connector.start (cls := Scripted_greenlet) 0) cfg_active
             [Fails_raising socket_error] in
  fst r = Ret tt /\
  Connector.keep_running (Connector.self (snd r)) = true /\
  Connector.is_connected (Connector.self (snd r)) = false /\
  count (fun ev => match ev with EvSpawn => true | _ => false end)
    (Connector.trace (snd r)) = 1 /\
  connect_count (Connector.trace (snd r)) = 0.
Proof. vm_compute. repeat split. Qed.

(** [Connector] itself never connects: its [_start] raises
    [NotImplementedError] at every attempt, which the loop logs and retries
    after the pause, for as long as it is let run. *)
Example base_connector_retries :
  let r := run (Connector.start (cls := Connector.Base (list attempt)) 4) cfg_active [] in
  fst r = Abort NoFuel /\
  connect_count (Connector.trace (snd r)) = 3 /\
  pauses (Connector.trace (snd r)) = [2; 2; 2] /\
  Connector.keep_connecting (Connector.self (snd r)) = true.
Proof. vm_compute. repeat split. Qed.

(** * Further properties *)

(** ** One attempt, in full *)

Section Attempts.

Context {W : Type} {cls : Connector.Subclass W}.

Import Connector.

Lemma loop_event_weaken n m ev : n <= m -> loop_event m ev -> loop_event n ev.
Proof.
  intros Hle. destruct ev as [[] [] | | [] |]; cbn; try tauto. lia.
Qed.

Lemma loop_events_weaken n m tr :
  n <= m -> Forall (loop_event m) tr -> Forall (loop_event n) tr.
Proof.
  intros Hle Hall. eapply Forall_impl; [exact Hall |].
  intros ev. apply loop_event_weaken. exact Hle.
Qed.

Lemma tenth_attempt_line_events details name n :
  Forall (loop_event n) (tenth_attempt_line details name (n + 1)).
Proof.
  unfold tenth_attempt_line.
  destruct (Nat.eqb_spec ((n + 1) mod 10) 0) as [Hten |]; constructor.
  - cbn. split; [exact Hten | lia].
  - constructor.
Qed.

(** What one pass of the body of the inner loop does, whatever the hook. *)
Lemma attempt_summary n s :
  let b := _start_loop_inner_body n s in
  exists r c' w',
    _start (self s) (world s) = (r, c', w') /\
    self (snd b) = c' /\
    world (snd b) = w' /\
    connect_count (trace (snd b)) = S (connect_count (trace s)) /\
    (exists tr', trace (snd b) = trace s ++ tr' /\ Forall (loop_event n) tr') /\
    fst b = match r with
            | Some e => if is_Exception e then Ret (n + 1) else Raise e
            | None => Ret (n + 1)
            end.
Proof.
  destruct s as [c w tr]. cbn [self world trace].
  destruct (_start c w) as [[[e |] c'] w'] eqn:Hh.
  - destruct (is_Exception e) eqn:He.
    + rewrite (attempt_raising _ _ _ _ _ _ _ Hh He).
      exists (Some e), c', w'. rewrite He. cbn [fst snd self world trace].
      repeat split.
      * unfold connect_count. rewrite !count_app. fold connect_count.
        rewrite connect_count_tenth. cbn. lia.
      * exists ([EvCall H_start; EvLog WARN (Traceback e); EvSleep 2]
                ++ tenth_attempt_line (get_log_details c' w') (name c') (n + 1)).
        split; [rewrite <- !app_assoc; reflexivity |].
        apply Forall_app. split; [| apply tenth_attempt_line_events].
        repeat constructor.
    + rewrite (attempt_interrupted _ _ _ _ _ _ _ Hh He).
      exists (Some e), c', w'. rewrite He. cbn [fst snd self world trace].
      repeat split.
      * unfold connect_count. rewrite !count_app. cbn. lia.
      * exists [EvCall H_start]. split; [reflexivity |]. repeat constructor.
  - rewrite (attempt_returning _ _ _ _ _ _ Hh).
    exists None, c', w'. cbn [fst snd self world trace].
    repeat split.
    + unfold connect_count. rewrite !count_app. fold connect_count.
      rewrite connect_count_tenth. cbn. lia.
    + exists ([EvCall H_start]
              ++ tenth_attempt_line (get_log_details c' w') (name c') (n + 1)).
      split; [rewrite <- !app_assoc; reflexivity |].
      apply Forall_app. split; [| apply tenth_attempt_line_events].
      repeat constructor.
Qed.

Lemma inner_events fuel :
  forall n s,
    (exists tr',
       trace (snd (_start_loop_inner fuel n s)) = trace s ++ tr' /\
       Forall (loop_event n) tr') /\
    (forall n', fst (_start_loop_inner fuel n s) = Ret n' -> n <= n').
Proof.
  induction fuel as [| fuel IH]; intros n s.
  - split; [| cbn; discriminate].
    exists []. cbn. rewrite app_nil_r. split; [reflexivity | constructor].
  - rewrite inner_unfold.
    destruct (is_connected (self s)).
    + split; [| cbn; intros n' [= <-]; lia].
      exists []. cbn. rewrite app_nil_r. split; [reflexivity | constructor].
    + destruct (attempt_summary n s)
        as (r & c' & w' & _ & _ & _ & _ & (tr' & Htr & Hev) & Hout).
      destruct (_start_loop_inner_body n s) as [[n' | e | why] s']; cbn [fst snd] in *.
      * assert (n' = n + 1) as ->.
        { destruct r as [e |]; [destruct (is_Exception e) |]; congruence. }
        destruct (IH (n + 1) s') as [(tr'' & Htr'' & Hev'') Hle]. split.
        -- exists (tr' ++ tr''). rewrite Htr'', Htr, <- app_assoc.
           split; [reflexivity |]. apply Forall_app. split; [exact Hev |].
           apply (loop_events_weaken n (n + 1)); [lia | exact Hev''].
        -- intros n' Hret. specialize (Hle n' Hret). lia.
      * split; [eauto | discriminate].
      * split; [eauto | discriminate].
Qed.

Lemma outer_events fuel :
  forall n s, exists tr',
    trace (snd (_start_loop_outer fuel n s)) = trace s ++ tr' /\
    Forall (loop_event n) tr'.
Proof.
  induction fuel as [| fuel IH]; intros n s.
  - exists []. cbn. rewrite app_nil_r. split; [reflexivity | constructor].
  - rewrite outer_unfold.
    destruct (keep_connecting (self s)).
    + destruct (inner_events fuel n s) as [(tr' & Htr & Hev) Hle].
      destruct (_start_loop_inner fuel n s) as [[n' | e | why] s']; cbn [fst snd] in *;
        eauto.
      destruct (IH n' (mkstate (set_keep_connecting false (self s')) (world s')
                         (trace s'))) as (tr'' & Htr'' & Hev'').
      exists (tr' ++ tr''). rewrite Htr''. cbn [trace]. rewrite Htr, <- app_assoc.
      split; [reflexivity |]. apply Forall_app. split; [exact Hev |].
      apply (loop_events_weaken n n'); [apply Hle; reflexivity | exact Hev''].
    + exists []. cbn. rewrite app_nil_r. split; [reflexivity | constructor].
Qed.

End Attempts.

(** ** The loop, whatever the hook *)

Section Loop_more.

Context {W : Type} {cls : Connector.Subclass W}.

Import Connector.

Lemma start_loop_connected fuel s :
  keep_connecting (self s) = true ->
  is_connected (self s) = true ->
  _start_loop (S (S fuel)) s
  = (Ret tt, mkstate (set_keep_connecting false (self s)) (world s) (trace s)).
Proof.
  intros Hk Hc.
  rewrite start_loop_unfold, outer_unfold, Hk, inner_unfold, Hc.
  rewrite outer_unfold. reflexivity.
Qed.

Lemma start_loop_interrupted fuel c w tr c' w' :
  keep_connecting c = true ->
  is_connected c = false ->
  _start c w = (Some KeyboardInterrupt, c', w') ->
  _start_loop (S (S fuel)) (mkstate c w tr)
  = (Ret tt, mkstate (set_keep_connecting false c') w' (tr ++ [EvCall H_start])).
Proof.
  intros Hk Hc Hh.
  rewrite start_loop_unfold, outer_unfold. cbn [self]. rewrite Hk.
  rewrite inner_unfold. cbn [self]. rewrite Hc.
  rewrite (attempt_interrupted _ _ _ _ _ _ _ Hh eq_refl). reflexivity.
Qed.

Lemma inner_always_fails fuel :
  always_fails _start ->
  forall n s,
    is_connected (self s) = false ->
    fst (_start_loop_inner fuel n s) = Abort NoFuel /\
    connect_count (trace (snd (_start_loop_inner fuel n s)))
    = connect_count (trace s) + fuel /\
    is_connected (self (snd (_start_loop_inner fuel n s))) = false.
Proof.
  intros Hfail. induction fuel as [| fuel IH]; intros n s Hc.
  - cbn. repeat split; [lia | exact Hc].
  - rewrite inner_unfold, Hc.
    destruct (attempt_summary n s)
      as (r & c' & w' & Hh & Hself & _ & Hcount & _ & Hout).
    destruct (Hfail (self s) (world s) Hc) as [Hc' He]. rewrite Hh in Hc', He.
    cbn [fst snd] in *.
    assert (Hret : fst (_start_loop_inner_body n s) = Ret (n + 1)).
    { rewrite Hout. destruct r as [e |]; [rewrite He |]; reflexivity. }
    destruct (_start_loop_inner_body n s) as [[n' | e | why] s']; cbn [fst snd] in *;
      try discriminate.
    subst c'. destruct (IH n' s' Hc') as (Ha & Hb & Hd).
    repeat split; [exact Ha | rewrite Hb, Hcount; lia | exact Hd].
Qed.

End Loop_more.

(** X1. Whatever the connect hook does and however long the loop runs, what
    [_start_loop] adds to the trace is made of entries of the connect hook,
    tracebacks logged at warn level, pauses of exactly two seconds, and
    "Could not connect" lines whose attempt count is a positive multiple of
    ten: it logs at no other level and never pauses for another time. *)
Theorem start_loop_only_warns_and_pauses
    {W : Type} (cls : Connector.Subclass W) (fuel : nat) (s : Connector.state W) :
  exists tr',
    Connector.trace (snd (Connector._start_loop fuel s)) = Connector.trace s ++ tr' /\
    Forall (loop_event 0) tr'.
Proof.
  rewrite start_loop_unfold.
  destruct (outer_events fuel 0 s) as (tr' & Htr & Hev).
  destruct (Connector._start_loop_outer fuel 0 s) as [[[] | e | why] s'];
    cbn [snd] in *; eauto.
  destruct (is_KeyboardInterrupt e); cbn [snd Connector.trace]; eauto.
Qed.

(** X2. A synchronous [start] of a connector that is already connected makes
    no connect attempt: it logs its two lines, sets [keep_running], closes
    [keep_connecting] and returns, with [is_connected] still true. *)
Theorem start_when_already_connected
    {W : Type} (cls : Connector.Subclass W) (fuel : nat) (s : Connector.state W) :
  Connector.start_in_greenlet = false ->
  Connector.keep_connecting (Connector.self s) = true ->
  Connector.is_connected (Connector.self s) = true ->
  Connector.start (S (S fuel)) s
  = (Ret tt,
     after_exit " Started"
       (Connector.mkstate
          (Connector.set_keep_connecting false
             (Connector.set_keep_running true (Connector.self s)))
          (Connector.world s) (Connector.trace (after_enter "Starting" s)))) /\
  connect_count (Connector.trace (snd (Connector.start (S (S fuel)) s)))
  = connect_count (Connector.trace s) /\
  Connector.is_connected (Connector.self (snd (Connector.start (S (S fuel)) s))) = true.
Proof.
  intros Hsync Hk Hc.
  assert (Hrun : Connector.start (S (S fuel)) s
                 = (Ret tt,
                    after_exit " Started"
                      (Connector.mkstate
                         (Connector.set_keep_connecting false
                            (Connector.set_keep_running true (Connector.self s)))
                         (Connector.world s)
                         (Connector.trace (after_enter "Starting" s))))).
  { rewrite start_unfold, Hsync.
    rewrite start_loop_connected by assumption. reflexivity. }
  rewrite Hrun. split; [reflexivity |]. split.
  - cbn [snd after_exit after_enter Connector.trace].
    unfold connect_count. rewrite !count_app. cbn. lia.
  - exact Hc.
Qed.

(** A connected connector whose [keep_connecting] is true again. *)
Lemma start_when_already_connected_witness :
  connect_count
    (Connector.trace (snd (Connector.start (cls := Scripted) 2 reopened_connector)))
  = connect_count (Connector.trace reopened_connector) /\
  Connector.is_connected
    (Connector.self (snd (Connector.start (cls := Scripted) 2 reopened_connector))) = true.
Proof.
  destruct (start_when_already_connected Scripted 0 reopened_connector
              eq_refl eq_refl eq_refl) as (_ & Hcalls & Hconn).
  split; assumption.
Defined.

(** X3. When the first attempt of a synchronous [start] is cut by a
    [KeyboardInterrupt], [start] returns normally: the loop is left after that
    one entry of the hook, with no traceback and no pause, [keep_connecting]
    is false from then on, and the object is otherwise as the hook left it. *)
Theorem start_interrupted_by_keyboard
    {W : Type} (cls : Connector.Subclass W)
    (fuel : nat) (c : Connector.t) (w : W) (tr : list event) (c' : Connector.t) (w' : W) :
  Connector.start_in_greenlet = false ->
  Connector.keep_connecting c = true ->
  Connector.is_connected c = false ->
  Connector._start (Connector.set_keep_running true c) w
  = (Some KeyboardInterrupt, c', w') ->
  Connector.start (S (S fuel)) (Connector.mkstate c w tr)
  = (Ret tt,
     after_exit " Started"
       (Connector.mkstate (Connector.set_keep_connecting false c') w'
          (Connector.trace (after_enter "Starting" (Connector.mkstate c w tr))
           ++ [EvCall H_start]))).
Proof.
  intros Hsync Hk Hc Hh. rewrite start_unfold, Hsync. cbn [Connector.self Connector.world].
  rewrite (start_loop_interrupted fuel (Connector.set_keep_running true c) w _ c' w'
             Hk Hc Hh).
  reflexivity.
Qed.

(** The scripted hook raises [KeyboardInterrupt] at its first attempt. *)
Lemma start_interrupted_by_keyboard_witness :
  let s := Connector.mkstate (fresh_connector cfg_active)
             [Fails_raising KeyboardInterrupt; Connects] [] in
  fst (Connector.start (cls := Scripted) 2 s) = Ret tt /\
  Connector.keep_connecting (Connector.self (snd (Connector.start (cls := Scripted) 2 s)))
  = false /\
  warn_count (Connector.trace (snd (Connector.start (cls := Scripted) 2 s))) = 0.
Proof.
  intros s. subst s.
  rewrite (start_interrupted_by_keyboard Scripted 0 (fresh_connector cfg_active)
             [Fails_raising KeyboardInterrupt; Connects] []
             (Connector.set_keep_running true (fresh_connector cfg_active)) [Connects]
             eq_refl eq_refl eq_refl eq_refl).
  repeat split.
Defined.

(** X4. Against a connect hook that never connects, a synchronous [start] of
    a connector that is to keep connecting neither returns nor raises, however
    long it is let run: with fuel for [n] passes of the loop it has entered
    the hook [n] times and is still at it, unconnected. There is no bound on
    the number of attempts. *)
Theorem start_retries_without_bound
    {W : Type} (cls : Connector.Subclass W) (fuel : nat) (s : Connector.state W) :
  Connector.start_in_greenlet = false ->
  always_fails Connector._start ->
  Connector.keep_connecting (Connector.self s) = true ->
  Connector.is_connected (Connector.self s) = false ->
  fst (Connector.start (S fuel) s) = Abort NoFuel /\
  connect_count (Connector.trace (snd (Connector.start (S fuel) s)))
  = connect_count (Connector.trace s) + fuel /\
  Connector.is_connected (Connector.self (snd (Connector.start (S fuel) s))) = false.
Proof.
  intros Hsync Hfail Hk Hc.
  rewrite start_unfold, Hsync, start_loop_unfold, outer_unfold.
  cbn [Connector.self]. change (Connector.keep_connecting
    (Connector.set_keep_running true (Connector.self s)))
    with (Connector.keep_connecting (Connector.self s)). rewrite Hk.
  destruct (inner_always_fails fuel Hfail 0
              (Connector.mkstate (Connector.set_keep_running true (Connector.self s))
                 (Connector.world s) (Connector.trace (after_enter "Starting" s))) Hc)
    as (Hout & Hcount & Hconn).
  destruct (Connector._start_loop_inner fuel 0 _) as [[n' | e | why] s'];
    cbn [fst snd] in *; try discriminate.
  injection Hout as ->. repeat split; [| exact Hconn].
  rewrite Hcount. cbn [Connector.trace after_enter].
  unfold connect_count. rewrite count_app. cbn. lia.
Qed.

(** [Connector] itself, whose [_start] raises [NotImplementedError]. *)
Lemma start_retries_without_bound_witness :
  let s := Connector.mkstate (fresh_connector cfg_active) ([] : list attempt) [] in
  fst (Connector.start (cls := Connector.Base (list attempt)) 8 s) = Abort NoFuel /\
  connect_count
    (Connector.trace (snd (Connector.start (cls := Connector.Base (list attempt)) 8 s)))
  = connect_count (Connector.trace s) + 7.
Proof.
  intros s.
  destruct (start_retries_without_bound (Connector.Base (list attempt)) 7 s)
    as (Hout & Hcount & _).
  - reflexivity.
  - intros c w Hc. split; [exact Hc | reflexivity].
  - reflexivity.
  - reflexivity.
  - split; assumption.
Defined.

(** ** The lock of a connector *)

Section Connector_lock.

Context {W : Type} {cls : Connector.Subclass W}.

Import Connector.


End Connector_lock.

(** X5. [send] holds the lock of the connector exactly for the time of the
    call: an active connector enters [_send] with the lock one deeper than
    the caller had it, the outcome of [send] is the outcome of [_send], and
    once [send] is over, by a return, by what [_send] raised or by
    [Inactive], the lock is as deep as before (for a [_send] that leaves it
    alone). *)
Theorem send_holds_and_releases_lock
    {W : Type} (cls : Connector.Subclass W) (m : msg) (s : Connector.state W) :
  keeps Connector.lock (Connector._send m) ->
  let entered :=
    Connector.set_lock (S (Connector.lock (Connector.self s))) (Connector.self s) in
  (Connector.is_inactive (Connector.self s) = false ->
   fst (Connector.send m s)
   = outcome_of (fst (fst (Connector._send m entered (Connector.world s)))) /\
   Connector.trace (snd (Connector.send m s)) = Connector.trace s ++ [EvCall (H_send m)]) /\
  Connector.lock (Connector.self (snd (Connector.send m s)))
  = Connector.lock (Connector.self s).
Proof.
  intros Hlock entered. rewrite send_unfold.
  destruct (Connector.is_inactive (Connector.self s)).
  - split; [discriminate | reflexivity].
  - specialize (Hlock entered (Connector.world s)). fold entered.
    destruct (Connector._send m entered (Connector.world s)) as [[r c'] w'].
    cbn [fst snd Connector.self Connector.trace Connector.lock Connector.set_lock] in *.
    split; [intros _; split; reflexivity |].
    rewrite Hlock. reflexivity.
Qed.

(** A send through an active connector held by nobody. *)
Lemma send_holds_and_releases_lock_witness :
  let s := Connector.mkstate (fresh_connector cfg_active) ([] : list attempt) [] in
  fst (Connector.send (cls := Scripted) "ping" s) = Ret tt /\
  Connector.lock (Connector.self (snd (Connector.send (cls := Scripted) "ping" s))) = 0.
Proof.
  intros s.
  destruct (send_holds_and_releases_lock Scripted "ping" s (fun c w => eq_refl))
    as [Hactive Hlock].
  destruct (Hactive eq_refl) as [Hout _].
  split; [exact Hout | exact Hlock].
Defined.



(** ** What [edit] changes and what it does not *)

(** X7. Two edits in a row: after the second, the connector has the name and
    the config of the second, and the [prev_address] of that config is the
    address of the config of the first edit, not the address the connector
    was built with (for hooks that leave name and config alone). *)
Theorem edit_twice_prev_address
    {W : Type} (cls : Connector.Subclass W)
    (fuel : nat) (old1 old2 : string) (cfg1 cfg2 : Config.t) (s : Connector.state W) :
  keeps Connector.name Connector._start ->
  keeps Connector.config Connector._start ->
  keeps Connector.name Connector._stop ->
  keeps Connector.config Connector._stop ->
  fst (Connector.edit fuel old1 cfg1 s) = Ret tt ->
  let s2 := snd ((Connector.edit fuel old1 cfg1 ;; Connector.edit fuel old2 cfg2) s) in
  Connector.name (Connector.self s2) = Config.name cfg2 /\
  Connector.config (Connector.self s2)
  = Config.set_prev_address (Config.address cfg1) cfg2.
Proof.
  intros Hn1 Hc1 Hn2 Hc2 Hret. cbv zeta. unfold bind.
  destruct (edit_installs_config fuel old1 cfg1 s Hn1 Hc1 Hn2 Hc2) as [_ Hconfig1].
  destruct (Connector.edit fuel old1 cfg1 s) as [[[] | e | why] s1]; cbn [fst snd] in *;
    try discriminate.
  destruct (edit_installs_config fuel old2 cfg2 s1 Hn1 Hc1 Hn2 Hc2) as [Hname2 Hconfig2].
  split; [exact Hname2 |].
  rewrite Hconfig2, Hconfig1. reflexivity.
Qed.

(** "out1" is edited into "out2" and then into "out3". *)
Lemma edit_twice_prev_address_witness :
  let s := Connector.mkstate (fresh_connector cfg_active) ([] : list attempt) [] in
  let s2 := snd ((Connector.edit (cls := Scripted) 1 "out1" cfg_renamed ;;
                  Connector.edit (cls := Scripted) 1 "out2" cfg_moved) s) in
  Connector.name (Connector.self s2) = Config.name cfg_moved /\
  Connector.config (Connector.self s2)
  = Config.set_prev_address (Config.address cfg_renamed) cfg_moved.
Proof.
  intros s.
  assert (Hn : keeps Connector.name (Connector._start (Subclass := Scripted))).
  { apply scripted_start_keeps. reflexivity. }
  assert (Hc : keeps Connector.config (Connector._start (Subclass := Scripted))).
  { apply scripted_start_keeps. reflexivity. }
  apply (edit_twice_prev_address Scripted 1 "out1" "out2" cfg_renamed cfg_moved s Hn Hc
           (fun c w => eq_refl) (fun c w => eq_refl)).
  vm_compute. reflexivity.
Defined.

(** X8. No operation recomputes what [__init__] derived from the config:
    after [start], [stop], [restart] and [edit], whatever the config [edit]
    is given, the connector has the [type], the callbacks, the [service], the
    [id], [is_active] and [is_inactive] it was built with (for hooks that
    leave them alone). *)
Theorem operations_keep_construction_attributes
    {W : Type} (cls : Connector.Subclass W)
    (fuel : nat) (old_name : string) (cfg : Config.t) (s : Connector.state W) :
  keeps set_at_construction Connector._start ->
  keeps set_at_construction Connector._stop ->
  set_at_construction (Connector.self (snd (Connector.start fuel s)))
  = set_at_construction (Connector.self s) /\
  set_at_construction (Connector.self (snd (Connector.stop s)))
  = set_at_construction (Connector.self s) /\
  set_at_construction (Connector.self (snd (Connector.restart fuel s)))
  = set_at_construction (Connector.self s) /\
  set_at_construction (Connector.self (snd (Connector.edit fuel old_name cfg s)))
  = set_at_construction (Connector.self s).
Proof.
  intros Hstart Hstop.
  set (P := fun c : Connector.t =>
              set_at_construction c = set_at_construction (Connector.self s)).
  assert (P1 : forall c b, P c -> P (Connector.set_keep_running b c))
    by (intros c b HP; exact HP).
  assert (P2 : forall c, P c -> P (Connector.set_keep_connecting false c))
    by (intros c HP; exact HP).
  assert (P3 : forall c w, P c -> P (snd (fst (Connector._start c w))))
    by (intros c w HP; unfold P in *; rewrite Hstart; exact HP).
  assert (P4 : forall c w, P c -> P (snd (fst (Connector._stop c w))))
    by (intros c w HP; unfold P in *; rewrite Hstop; exact HP).
  split; [apply (start_preserves P P1 P2 P3); reflexivity |].
  split; [apply (stop_preserves P P1 P2 P4); reflexivity |].
  split; [apply (restart_preserves P P1 P2 P3 P4); reflexivity |].
  apply (edit_preserves P); try assumption.
  - intros c l HP; exact HP.
  - reflexivity.
Qed.

(** An edit with a config of another id, another service and [is_active]
    false. *)
Lemma operations_keep_construction_attributes_witness :
  let s := Connector.mkstate (fresh_connector cfg_active) ([] : list attempt) [] in
  let s' := snd (Connector.edit (cls := Scripted) 1 "out1" cfg_other_id s) in
  set_at_construction (Connector.self s') = set_at_construction (Connector.self s).
Proof.
  intros s.
  assert (Hstart : keeps set_at_construction (Connector._start (Subclass := Scripted))).
  { apply scripted_start_keeps. reflexivity. }
  destruct (operations_keep_construction_attributes Scripted 1 "out1" cfg_other_id s
              Hstart (fun c w => eq_refl)) as (_ & _ & _ & Hedit).
  exact Hedit.
Defined.

(** ** The lock of the store *)

Section Store_lock.

Context {W : Type} {cls : Connector.Subclass W}.

Lemma keeps_store_lock_bind {A B} (m : M (ConnectorStore.state W) A)
    (k : A -> M (ConnectorStore.state W) B) :
  keeps_store_lock m ->
  (forall a, keeps_store_lock (k a)) ->
  keeps_store_lock (bind m k).
Proof.
  intros Hm Hk s. unfold bind. specialize (Hm s).
  destruct (m s) as [[a | e | why] s']; cbn [snd] in *; try exact Hm.
  rewrite (Hk a s'). exact Hm.
Qed.

Lemma keeps_store_lock_ret {A} (a : A) :
  keeps_store_lock (ret (S := ConnectorStore.state W) a).
Proof. intros s. reflexivity. Qed.

Lemma keeps_store_lock_gets {A} (f : ConnectorStore.state W -> A) :
  keeps_store_lock (gets f).
Proof. intros s. reflexivity. Qed.

Lemma keeps_store_lock_getitem name :
  keeps_store_lock (ConnectorStore.getitem (W := W) name).
Proof.
  intros s. unfold ConnectorStore.getitem.
  destruct (ConnectorStore.connectors (ConnectorStore.self s) !! name); reflexivity.
Qed.

Lemma keeps_store_lock_setitem name r :
  keeps_store_lock (ConnectorStore.setitem (W := W) name r).
Proof. intros s. reflexivity. Qed.

Lemma keeps_store_lock_pop name :
  keeps_store_lock (ConnectorStore.pop (W := W) name).
Proof.
  unfold ConnectorStore.pop.
  apply keeps_store_lock_bind; [apply keeps_store_lock_getitem |].
  intros r. apply keeps_store_lock_bind; [intros s; reflexivity |].
  intros _. apply keeps_store_lock_ret.
Qed.

Lemma keeps_store_lock_on_object {A} r (m : M (Connector.state W) A) :
  keeps_store_lock (ConnectorStore.on_object r m).
Proof.
  intros s. unfold ConnectorStore.on_object.
  destruct (ConnectorStore.heap s !! r) as [c |]; [| reflexivity].
  destruct (m _) as [res cs]. reflexivity.
Qed.

Lemma keeps_store_lock_start_each fuel name rs :
  keeps_store_lock (ConnectorStore.start_each fuel name rs).
Proof.
  induction rs as [| r rs IH]; cbn [ConnectorStore.start_each].
  - apply keeps_store_lock_ret.
  - apply keeps_store_lock_bind; [apply keeps_store_lock_on_object |].
    intros skip. apply keeps_store_lock_bind; [| intros _; exact IH].
    destruct skip; [apply keeps_store_lock_ret | apply keeps_store_lock_on_object].
Qed.

(** [with self.lock] around a body that leaves the lock alone: the lock is
    taken, and given back when the body returns and when it raises. *)
Lemma with_lock_balanced {A} (body : M (ConnectorStore.state W) A) s :
  keeps_store_lock body ->
  completed (fst (ConnectorStore.with_lock body s)) = true ->
  ConnectorStore.lock (ConnectorStore.self (snd (ConnectorStore.with_lock body s)))
  = ConnectorStore.lock (ConnectorStore.self s).
Proof.
  intros Hbody. unfold ConnectorStore.with_lock, with_, ConnectorStore.update, modify.
  match goal with
  | |- context [body ?s1] => specialize (Hbody s1); destruct (body s1) as [[a | e | why] s']
  end; cbn [fst snd completed ConnectorStore.self ConnectorStore.lock
            ConnectorStore.set_lock] in *; try discriminate;
    intros _; rewrite Hbody; reflexivity.
Qed.

End Store_lock.

(** X9. The store takes its lock for the whole of [create], [edit],
    [delete] and [start] and gives it back when they are over, by a return or
    by an exception ([KeyError] for a name it does not have, or what a
    connector raised): the lock is then as deep as before. *)
Theorem store_methods_release_lock
    {W : Type} (cls : Connector.Subclass W) (s : ConnectorStore.state W)
    (fuel : nat) (name : string) (cfg : Config.t)
    (cb auth : option Connector.callback) (which : option string) :
  let same_lock (r : outcome unit * ConnectorStore.state W) :=
    completed (fst r) = true ->
    ConnectorStore.lock (ConnectorStore.self (snd r))
    = ConnectorStore.lock (ConnectorStore.self s) in
  same_lock (ConnectorStore.create name cfg cb auth s) /\
  same_lock (ConnectorStore.edit fuel name cfg s) /\
  same_lock (ConnectorStore.delete name s) /\
  same_lock (ConnectorStore.start fuel which s).
Proof.
  cbv zeta. split; [| split; [| split]].
  - apply with_lock_balanced.
    apply keeps_store_lock_bind; [apply keeps_store_lock_gets |].
    intros ty. apply keeps_store_lock_bind; [intros s0; reflexivity |].
    intros r. apply keeps_store_lock_setitem.
  - apply with_lock_balanced.
    apply keeps_store_lock_bind; [apply keeps_store_lock_getitem |].
    intros r. apply keeps_store_lock_bind; [apply keeps_store_lock_on_object |].
    intros _. apply keeps_store_lock_bind; [apply keeps_store_lock_pop |].
    intros r'. apply keeps_store_lock_setitem.
  - apply with_lock_balanced.
    apply keeps_store_lock_bind; [apply keeps_store_lock_getitem |].
    intros r. apply keeps_store_lock_bind; [apply keeps_store_lock_on_object |].
    intros _. unfold ConnectorStore.delitem.
    apply keeps_store_lock_bind; [apply keeps_store_lock_pop |].
    intros _. apply keeps_store_lock_ret.
  - apply with_lock_balanced.
    apply keeps_store_lock_bind; [apply keeps_store_lock_gets |].
    intros rs. apply keeps_store_lock_start_each.
Qed.

(** A store whose only connector raises in [_stop]: [delete] and [edit]
    raise, and an [edit] of a name the store does not have raises
    [KeyError]. *)
Lemma store_methods_release_lock_witness :
  ConnectorStore.lock
    (ConnectorStore.self (snd (ConnectorStore.delete (cls := Failing_stop) "out1"
                                 one_connector)))
  = ConnectorStore.lock (ConnectorStore.self one_connector) /\
  ConnectorStore.lock
    (ConnectorStore.self (snd (ConnectorStore.edit (cls := Failing_stop) 1 "out9"
                                 cfg_renamed one_connector)))
  = ConnectorStore.lock (ConnectorStore.self one_connector).
Proof.
  destruct (store_methods_release_lock Failing_stop one_connector 1 "out1" cfg_renamed
              None None None) as (_ & _ & Hdelete & _).
  destruct (store_methods_release_lock Failing_stop one_connector 1 "out9" cfg_renamed
              None None None) as (_ & Hedit & _ & _).
  split.
  - apply Hdelete. vm_compute. reflexivity.
  - apply Hedit. vm_compute. reflexivity.
Defined.

(** ** [start] of the store *)

Section Store_start.

Context {W : Type} {cls : Connector.Subclass W}.

Lemma start_each_empty_name fuel rs :
  ConnectorStore.start_each fuel (Some "") rs = ConnectorStore.start_each fuel None rs.
Proof.
  induction rs as [| r rs IH]; cbn [ConnectorStore.start_each]; [reflexivity |].
  rewrite IH. reflexivity.
Qed.

Lemma on_object_gets {A} r c (f : Connector.state W -> A) (s : ConnectorStore.state W) :
  ConnectorStore.heap s !! r = Some c ->
  ConnectorStore.on_object r (gets f) s
  = (Ret (f (Connector.mkstate c (ConnectorStore.world s) (ConnectorStore.trace s))), s).
Proof.
  intros Hobj. unfold ConnectorStore.on_object, gets. rewrite Hobj.
  cbn [Connector.self Connector.world Connector.trace].
  rewrite (insert_id _ _ _ Hobj). destruct s; reflexivity.
Qed.

Lemma start_each_skips fuel n rs (s : ConnectorStore.state W) :
  n <> "" ->
  (forall r, r ∈ rs ->
     exists c, ConnectorStore.heap s !! r = Some c /\ Connector.name c <> n) ->
  ConnectorStore.start_each fuel (Some n) rs s = (Ret tt, s).
Proof.
  intros Hn. induction rs as [| r rs IH]; intros Hall; [reflexivity |].
  cbn [ConnectorStore.start_each].
  destruct (Hall r) as (c & Hobj & Hname); [left |].
  unfold bind at 1. rewrite (on_object_gets r c _ s Hobj).
  cbn [Connector.self Connector.name].
  apply String.eqb_neq in Hn. rewrite Hn.
  assert (Hne : String.eqb n (Connector.name c) = false).
  { apply String.eqb_neq. congruence. }
  rewrite Hne. cbn [negb andb]. unfold bind, ret.
  apply IH. intros r' Hr'. apply Hall. right. exact Hr'.
Qed.

End Store_start.

(** X10. For [start] of the store the empty string is no name: [start('')]
    does what [start()] does, and starts every connector. *)
Theorem store_start_empty_name_is_no_name
    {W : Type} (cls : Connector.Subclass W) (fuel : nat) (s : ConnectorStore.state W) :
  ConnectorStore.start fuel (Some "") s = ConnectorStore.start fuel None s.
Proof.
  cbv [ConnectorStore.start ConnectorStore.with_lock with_ ConnectorStore.update
       modify bind gets].
  rewrite start_each_empty_name. reflexivity.
Qed.

(** X11. [start] with a name that no connector of the store has starts none
    of them and is no error: it returns, and the registry, the objects, the
    world and the trace are as they were. *)
Theorem store_start_unknown_name_starts_none
    {W : Type} (cls : Connector.Subclass W)
    (fuel : nat) (n : string) (s : ConnectorStore.state W) :
  n <> "" ->
  no_connector_named n s ->
  ConnectorStore.start fuel (Some n) s = (Ret tt, s).
Proof.
  intros Hn Hnone. destruct s as [[ty conns lk] h w tr].
  unfold ConnectorStore.start, ConnectorStore.with_lock, with_,
    ConnectorStore.update, modify.
  unfold bind at 1, gets at 1.
  cbn [ConnectorStore.self ConnectorStore.heap ConnectorStore.world
       ConnectorStore.trace ConnectorStore.connectors ConnectorStore.lock
       ConnectorStore.set_lock ConnectorStore.type].
  rewrite (start_each_skips fuel n _ _ Hn).
  - reflexivity.
  - intros r Hr. apply list_elem_of_fmap in Hr as ([key r'] & -> & Hin).
    apply elem_of_map_to_list in Hin.
    destruct (Hnone key r' Hin) as (c & Hobj & Hname). eauto.
Qed.

(** The store with the connector "out1" is asked to start "out9". *)
Lemma store_start_unknown_name_starts_none_witness :
  ConnectorStore.start (cls := Scripted) 3 (Some "out9") one_connector
  = (Ret tt, one_connector).
Proof.
  apply (store_start_unknown_name_starts_none Scripted 3 "out9" one_connector).
  - discriminate.
  - intros key r Hentry.
    assert (Hkey : key = "out1").
    { destruct (decide (key = "out1")) as [-> | Hne]; [reflexivity |].
      unfold one_connector in Hentry. rewrite create_unfold in Hentry.
      cbn in Hentry. rewrite lookup_insert_ne in Hentry by congruence.
      rewrite lookup_empty in Hentry. discriminate. }
    subst key. exists (fresh_connector cfg_active). split.
    + assert (Hr : r = 0) by (vm_compute in Hentry; congruence).
      subst r. vm_compute. reflexivity.
    + discriminate.
Defined.

(** ** Renaming in the registry *)

(** X12. An [edit] whose config has the name the connector already has
    leaves the registry as it was: the entry is popped and put back under the
    same name, with the same reference. *)
Theorem store_edit_with_unchanged_name
    {W : Type} (cls : Connector.Subclass W)
    (s : ConnectorStore.state W) (fuel : nat) (old_name : string) (cfg : Config.t)
    (r : ConnectorStore.ref) (c : Connector.t) :
  ConnectorStore.connectors (ConnectorStore.self s) !! old_name = Some r ->
  ConnectorStore.heap s !! r = Some c ->
  Config.name cfg = old_name ->
  fst (ConnectorStore.edit fuel old_name cfg s) = Ret tt ->
  ConnectorStore.self (snd (ConnectorStore.edit fuel old_name cfg s))
  = ConnectorStore.self s.
Proof.
  intros Hsome Hobj Hname. rewrite (edit_present fuel old_name cfg s r c Hsome Hobj).
  cbv zeta.
  destruct (Connector.edit fuel old_name cfg _) as [[[] | e | why] cs]; cbn [fst snd];
    try discriminate.
  intros _. store_cbn. rewrite Hname, (insert_delete_id _ _ _ Hsome).
  destruct (ConnectorStore.self s); reflexivity.
Qed.

(** "out1" gets a new address and keeps its name. *)
Lemma store_edit_with_unchanged_name_witness :
  ConnectorStore.self
    (snd (ConnectorStore.edit (cls := Scripted) 1 "out1" cfg_readdressed one_connector))
  = ConnectorStore.self one_connector.
Proof.
  apply (store_edit_with_unchanged_name Scripted one_connector 1 "out1" cfg_readdressed
           0 (fresh_connector cfg_active)).
  - vm_compute. reflexivity.
  - vm_compute. reflexivity.
  - reflexivity.
  - vm_compute. reflexivity.
Defined.

(** X13. An [edit] onto a name another connector has takes the entry from
    it: the name then leads to the edited connector, the registry has one
    entry less, and the connector that had the name is not stopped, its
    object is as it was. *)
Theorem store_edit_onto_taken_name
    {W : Type} (cls : Connector.Subclass W)
    (s : ConnectorStore.state W) (fuel : nat) (old_name : string) (cfg : Config.t)
    (r other : ConnectorStore.ref) (c : Connector.t) :
  ConnectorStore.connectors (ConnectorStore.self s) !! old_name = Some r ->
  ConnectorStore.heap s !! r = Some c ->
  ConnectorStore.connectors (ConnectorStore.self s) !! Config.name cfg = Some other ->
  Config.name cfg <> old_name ->
  other <> r ->
  fst (ConnectorStore.edit fuel old_name cfg s) = Ret tt ->
  let s' := snd (ConnectorStore.edit fuel old_name cfg s) in
  ConnectorStore.connectors (ConnectorStore.self s') !! Config.name cfg = Some r /\
  size (ConnectorStore.connectors (ConnectorStore.self s'))
  = pred (size (ConnectorStore.connectors (ConnectorStore.self s))) /\
  ConnectorStore.heap s' !! other = ConnectorStore.heap s !! other.
Proof.
  intros Hsome Hobj Htaken Hne Hother.
  rewrite (edit_present fuel old_name cfg s r c Hsome Hobj). cbv zeta.
  destruct (Connector.edit fuel old_name cfg _) as [[[] | e | why] cs]; cbn [fst snd];
    try discriminate.
  intros _. store_cbn. split; [apply lookup_insert_eq |]. split.
  - rewrite map_size_insert_Some.
    + apply map_size_delete_Some. eauto.
    + rewrite lookup_delete_ne by congruence. eauto.
  - apply lookup_insert_ne. congruence.
Qed.

(** "out1" is renamed "out2" while there is an "out2". *)
Lemma store_edit_onto_taken_name_witness :
  let s' := snd (ConnectorStore.edit (cls := Scripted) 1 "out1" cfg_renamed
                   two_connectors) in
  ConnectorStore.connectors (ConnectorStore.self s') !! Config.name cfg_renamed = Some 0 /\
  size (ConnectorStore.connectors (ConnectorStore.self s'))
  = pred (size (ConnectorStore.connectors (ConnectorStore.self two_connectors))) /\
  ConnectorStore.heap s' !! 1 = ConnectorStore.heap two_connectors !! 1.
Proof.
  apply (store_edit_onto_taken_name Scripted two_connectors 1 "out1" cfg_renamed
           0 1 (fresh_connector cfg_active)).
  - vm_compute. reflexivity.
  - vm_compute. reflexivity.
  - vm_compute. reflexivity.
  - discriminate.
  - discriminate.
  - vm_compute. reflexivity.
Defined.

(** X14. A rename and the rename back: when the second name was free, the
    two edits that return leave the registry as it was before the first. *)
Theorem store_edit_there_and_back
    {W : Type} (cls : Connector.Subclass W)
    (s : ConnectorStore.state W) (fuel : nat) (name1 name2 : string)
    (cfg2 cfg1 : Config.t) (r : ConnectorStore.ref) (c : Connector.t) :
  ConnectorStore.connectors (ConnectorStore.self s) !! name1 = Some r ->
  ConnectorStore.heap s !! r = Some c ->
  ConnectorStore.connectors (ConnectorStore.self s) !! name2 = None ->
  Config.name cfg2 = name2 ->
  Config.name cfg1 = name1 ->
  let twice := (ConnectorStore.edit fuel name1 cfg2 ;;
                ConnectorStore.edit fuel name2 cfg1) s in
  fst twice = Ret tt ->
  ConnectorStore.self (snd twice) = ConnectorStore.self s.
Proof.
  intros Hsome Hobj Hfree Hname2 Hname1. cbv zeta. unfold bind.
  assert (Hne : name2 <> name1) by congruence.
  rewrite (edit_present fuel name1 cfg2 s r c Hsome Hobj). cbv zeta.
  destruct (Connector.edit fuel name1 cfg2 _) as [[[] | e | why] cs]; cbn [fst snd];
    try discriminate.
  rewrite Hname2.
  erewrite (edit_present fuel name2 cfg1 _ r (Connector.self cs)).
  2: { store_cbn. apply lookup_insert_eq. }
  2: { store_cbn. apply lookup_insert_eq. }
  cbv zeta.
  destruct (Connector.edit fuel name2 cfg1 _) as [[[] | e | why] cs2]; cbn [fst snd];
    try discriminate.
  intros _. store_cbn. rewrite Hname1.
  rewrite delete_insert_id by (rewrite lookup_delete_ne by congruence; exact Hfree).
  rewrite (insert_delete_id _ _ _ Hsome).
  destruct (ConnectorStore.self s); reflexivity.
Qed.

(** "out1" is renamed "out2" and then "out1" again. *)
Lemma store_edit_there_and_back_witness :
  ConnectorStore.self
    (snd ((ConnectorStore.edit (cls := Scripted) 1 "out1" cfg_renamed ;;
           ConnectorStore.edit (cls := Scripted) 1 "out2" cfg_active) one_connector))
  = ConnectorStore.self one_connector.
Proof.
  apply (store_edit_there_and_back Scripted one_connector 1 "out1" "out2"
           cfg_renamed cfg_active 0 (fresh_connector cfg_active)).
  - vm_compute. reflexivity.
  - vm_compute. reflexivity.
  - vm_compute. reflexivity.
  - reflexivity.
  - reflexivity.
  - vm_compute. reflexivity.
Defined.

(** ** What the store leaves alone *)

(** X15. [edit] and [delete] touch one entry and one object: whatever their
    outcome, the entries under names other than the old and the new one, and
    the objects behind other references than that of the named connector, are
    as they were. *)
Theorem store_edit_and_delete_touch_one_entry
    {W : Type} (cls : Connector.Subclass W)
    (s : ConnectorStore.state W) (fuel : nat) (name : string) (cfg : Config.t)
    (r : ConnectorStore.ref) (c : Connector.t) :
  ConnectorStore.connectors (ConnectorStore.self s) !! name = Some r ->
  ConnectorStore.heap s !! r = Some c ->
  let edited := snd (ConnectorStore.edit fuel name cfg s) in
  let deleted := snd (ConnectorStore.delete name s) in
  (forall key, key <> name -> key <> Config.name cfg ->
     ConnectorStore.connectors (ConnectorStore.self edited) !! key
     = ConnectorStore.connectors (ConnectorStore.self s) !! key) /\
  (forall r', r' <> r ->
     ConnectorStore.heap edited !! r' = ConnectorStore.heap s !! r') /\
  (forall key, key <> name ->
     ConnectorStore.connectors (ConnectorStore.self deleted) !! key
     = ConnectorStore.connectors (ConnectorStore.self s) !! key) /\
  (forall r', r' <> r ->
     ConnectorStore.heap deleted !! r' = ConnectorStore.heap s !! r').
Proof.
  intros Hsome Hobj. cbv zeta.
  rewrite (edit_present fuel name cfg s r c Hsome Hobj).
  rewrite (delete_present name s r c Hsome Hobj). cbv zeta.
  split; [| split; [| split]].
  - intros key Hk1 Hk2.
    destruct (Connector.edit fuel name cfg _) as [[[] | e | why] cs]; cbn [snd];
      store_cbn; try reflexivity.
    rewrite lookup_insert_ne by congruence. apply lookup_delete_ne. congruence.
  - intros r' Hr'.
    destruct (Connector.edit fuel name cfg _) as [[[] | e | why] cs]; cbn [snd];
      store_cbn; apply lookup_insert_ne; congruence.
  - intros key Hk.
    destruct (Connector.stop _) as [[[] | e | why] cs]; cbn [snd];
      store_cbn; try reflexivity.
    apply lookup_delete_ne. congruence.
  - intros r' Hr'.
    destruct (Connector.stop _) as [[[] | e | why] cs]; cbn [snd];
      store_cbn; apply lookup_insert_ne; congruence.
Qed.

(** "out1" is deleted from the store that also has "out2". *)
Lemma store_edit_and_delete_touch_one_entry_witness :
  let deleted := snd (ConnectorStore.delete (cls := Scripted) "out1" two_connectors) in
  ConnectorStore.connectors (ConnectorStore.self deleted) !! "out2"
  = ConnectorStore.connectors (ConnectorStore.self two_connectors) !! "out2" /\
  ConnectorStore.heap deleted !! 1 = ConnectorStore.heap two_connectors !! 1.
Proof.
  destruct (store_edit_and_delete_touch_one_entry Scripted two_connectors 1 "out1"
              cfg_readdressed 0 (fresh_connector cfg_active))
    as (_ & _ & Hentries & Hobjects).
  - vm_compute. reflexivity.
  - vm_compute. reflexivity.
  - split.
    + apply Hentries. discriminate.
    + apply Hobjects. discriminate.
Defined.

(** X16. A connector created under a free name and deleted again: when its
    [_stop] hook returns, the registry is as it was before the [create]. *)
Theorem store_create_then_delete
    {W : Type} (cls : Connector.Subclass W)
    (s : ConnectorStore.state W) (name : string) (cfg : Config.t)
    (cb auth : option Connector.callback) :
  ConnectorStore.connectors (ConnectorStore.self s) !! name = None ->
  fst (fst (Connector._stop
              (flags_cleared
                 (Connector.__init__ name (ConnectorStore.type (ConnectorStore.self s))
                    cfg cb auth))
              (ConnectorStore.world s))) = None ->
  let both := (ConnectorStore.create name cfg cb auth ;; ConnectorStore.delete name) s in
  fst both = Ret tt /\
  ConnectorStore.self (snd both) = ConnectorStore.self s.
Proof.
  intros Hfree Hret. cbv zeta. unfold bind. rewrite create_unfold. cbv beta iota zeta.
  erewrite delete_present.
  2: { store_cbn. apply lookup_insert_eq. }
  2: { store_cbn. apply lookup_insert_eq. }
  cbv zeta. store_cbn.
  pose proof (stop_outcome
                (Connector.mkstate
                   (Connector.__init__ name (ConnectorStore.type (ConnectorStore.self s))
                      cfg cb auth)
                   (ConnectorStore.world s) (ConnectorStore.trace s))) as Hout.
  cbn [Connector.self Connector.world] in Hout. rewrite Hret in Hout.
  destruct (Connector.stop _) as [[[] | e | why] cs]; cbn [fst snd] in *;
    try discriminate.
  split; [reflexivity |]. store_cbn.
  rewrite (delete_insert_id _ _ _ Hfree).
  destruct (ConnectorStore.self s); reflexivity.
Qed.

(** "out2" is created in the store of "out1" and deleted again. *)
Lemma store_create_then_delete_witness :
  let both := (ConnectorStore.create "out2" cfg_renamed None None ;;
               ConnectorStore.delete (cls := Scripted) "out2") one_connector in
  fst both = Ret tt /\
  ConnectorStore.self (snd both) = ConnectorStore.self one_connector.
Proof.
  apply (store_create_then_delete Scripted one_connector "out2" cfg_renamed None None).
  - vm_compute. reflexivity.
  - reflexivity.
Defined.

(** ** When [_stop] raises under the store *)

(** X17. When the [_stop] hook of the named connector raises, [delete]
    raises the same exception and removes nothing: the registry and the lock
    of the store are as they were, and the object is left as the hook left it,
    its two flags cleared before the hook was entered. *)
Theorem store_delete_when_stop_raises
    {W : Type} (cls : Connector.Subclass W)
    (s : ConnectorStore.state W) (name : string)
    (r : ConnectorStore.ref) (c : Connector.t) (e : exc) :
  ConnectorStore.connectors (ConnectorStore.self s) !! name = Some r ->
  ConnectorStore.heap s !! r = Some c ->
  fst (fst (Connector._stop (flags_cleared c) (ConnectorStore.world s))) = Some e ->
  fst (ConnectorStore.delete name s) = Raise e /\
  ConnectorStore.self (snd (ConnectorStore.delete name s)) = ConnectorStore.self s /\
  ConnectorStore.heap (snd (ConnectorStore.delete name s)) !! r
  = Some (snd (fst (Connector._stop (flags_cleared c) (ConnectorStore.world s)))).
Proof.
  intros Hsome Hobj Hraise.
  rewrite (delete_present name s r c Hsome Hobj). cbv zeta.
  pose proof (stop_outcome
                (Connector.mkstate c (ConnectorStore.world s) (ConnectorStore.trace s)))
    as Hout.
  pose proof (stop_self
                (Connector.mkstate c (ConnectorStore.world s) (ConnectorStore.trace s)))
    as Hself.
  cbn [Connector.self Connector.world] in Hout, Hself. rewrite Hraise in Hout.
  destruct (Connector.stop _) as [[[] | e' | why] cs]; cbn [fst snd outcome_of] in *;
    try discriminate.
  injection Hout as ->. store_cbn.
  split; [reflexivity |]. split; [reflexivity |].
  rewrite lookup_insert_eq, Hself. reflexivity.
Qed.

(** The only connector of the store raises in [_stop]. *)
Lemma store_delete_when_stop_raises_witness :
  fst (ConnectorStore.delete (cls := Failing_stop) "out1" one_connector)
  = Raise (OtherException "socket.error") /\
  ConnectorStore.self (snd (ConnectorStore.delete (cls := Failing_stop) "out1"
                              one_connector))
  = ConnectorStore.self one_connector.
Proof.
  destruct (store_delete_when_stop_raises Failing_stop one_connector "out1" 0
              (fresh_connector cfg_active) (OtherException "socket.error"))
    as (Hout & Hself & _).
  - vm_compute. reflexivity.
  - vm_compute. reflexivity.
  - reflexivity.
  - split; assumption.
Defined.

Section Edit_raises.

Context {W : Type} {cls : Connector.Subclass W}.

Import Connector.

(** [edit] of a connector whose [_stop] hook raises: the new name and config
    are in place, the restart ends at its [stop], and the lock is released. *)
Lemma edit_when_stop_raises fuel old_name cfg s e :
  fst (fst (_stop (flags_cleared (edited cfg (self s))) (world s))) = Some e ->
  fst (edit fuel old_name cfg s) = Raise e /\
  self (snd (edit fuel old_name cfg s))
  = set_lock (pred (lock (snd (fst (_stop (flags_cleared (edited cfg (self s)))
                                      (world s))))))
      (snd (fst (_stop (flags_cleared (edited cfg (self s))) (world s)))).
Proof.
  intros Hraise. rewrite edit_unfold. unfold restart, bind.
  pose proof (stop_outcome (mkstate (edited cfg (self s)) (world s) (trace s))) as Hout.
  pose proof (stop_self (mkstate (edited cfg (self s)) (world s) (trace s))) as Hself.
  cbn [self world] in Hout, Hself. rewrite Hraise in Hout.
  destruct (stop _) as [[[] | e' | why] s']; cbn [fst snd outcome_of] in *;
    try discriminate.
  injection Hout as ->. cbn [after_release self]. rewrite Hself.
  split; reflexivity.
Qed.

End Edit_raises.

(** X18. When the [_stop] hook of the named connector raises during [edit],
    [edit] raises the same exception and the registry is as it was, the
    entry still under the old name, while the object already has the name of
    the new config (for a hook that leaves the name alone): the name in the
    registry and the name of the connector then differ. *)
Theorem store_edit_when_stop_raises
    {W : Type} (cls : Connector.Subclass W)
    (s : ConnectorStore.state W) (fuel : nat) (old_name : string) (cfg : Config.t)
    (r : ConnectorStore.ref) (c : Connector.t) (e : exc) :
  ConnectorStore.connectors (ConnectorStore.self s) !! old_name = Some r ->
  ConnectorStore.heap s !! r = Some c ->
  fst (fst (Connector._stop (flags_cleared (edited cfg c)) (ConnectorStore.world s)))
  = Some e ->
  keeps Connector.name Connector._stop ->
  fst (ConnectorStore.edit fuel old_name cfg s) = Raise e /\
  ConnectorStore.self (snd (ConnectorStore.edit fuel old_name cfg s))
  = ConnectorStore.self s /\
  Connector.name <$> ConnectorStore.heap (snd (ConnectorStore.edit fuel old_name cfg s)) !! r
  = Some (Config.name cfg).
Proof.
  intros Hsome Hobj Hraise Hname.
  rewrite (edit_present fuel old_name cfg s r c Hsome Hobj). cbv zeta.
  destruct (edit_when_stop_raises fuel old_name cfg
              (Connector.mkstate c (ConnectorStore.world s) (ConnectorStore.trace s))
              e Hraise) as [Hout Hself].
  cbn [Connector.self Connector.world] in Hself.
  destruct (Connector.edit fuel old_name cfg _) as [[[] | e' | why] cs];
    cbn [fst snd] in *; try discriminate.
  injection Hout as ->. store_cbn.
  split; [reflexivity |]. split; [reflexivity |].
  rewrite lookup_insert_eq, Hself. cbn [fmap option_fmap option_map].
  f_equal. change (Connector.name (Connector.set_lock ?l ?x)) with (Connector.name x).
  rewrite Hname. reflexivity.
Qed.

(** The only connector of the store raises in [_stop] when it is renamed. *)
Lemma store_edit_when_stop_raises_witness :
  let edited := ConnectorStore.edit (cls := Failing_stop) 1 "out1" cfg_renamed
                  one_connector in
  fst edited = Raise (OtherException "socket.error") /\
  ConnectorStore.self (snd edited) = ConnectorStore.self one_connector /\
  Connector.name <$> ConnectorStore.heap (snd edited) !! 0 = Some (Config.name cfg_renamed).
Proof.
  apply (store_edit_when_stop_raises Failing_stop one_connector 1 "out1" cfg_renamed 0
           (fresh_connector cfg_active) (OtherException "socket.error")).
  - vm_compute. reflexivity.
  - vm_compute. reflexivity.
  - reflexivity.
  - intros c w. reflexivity.
Defined.

(** ** [invoke] *)

(** X19. [invoke] takes no lock and never changes the store itself: for
    every name, the registry and the lock are after it as before. For a name
    the registry has, it enters the [invoke] hook of that connector once; its
    outcome is the outcome of the hook and the object is what the hook
    leaves. *)
Theorem store_invoke_forwards
    {W : Type} (cls : Connector.Subclass W)
    (s : ConnectorStore.state W) (name : string) (args : list string) :
  ConnectorStore.self (snd (ConnectorStore.invoke name args s)) = ConnectorStore.self s /\
  (forall r c,
     ConnectorStore.connectors (ConnectorStore.self s) !! name = Some r ->
     ConnectorStore.heap s !! r = Some c ->
     let h := Connector.invoke args c (ConnectorStore.world s) in
     ConnectorStore.invoke name args s
     = (outcome_of (fst (fst h)),
        ConnectorStore.mkstate (ConnectorStore.self s)
          (<[r := snd (fst h)]> (ConnectorStore.heap s)) (snd h)
          (ConnectorStore.trace s ++ [EvCall (H_invoke args)]))).
Proof.
  split.
  - unfold ConnectorStore.invoke, bind, ConnectorStore.getitem.
    destruct (ConnectorStore.connectors (ConnectorStore.self s) !! name) as [r |];
      [| reflexivity].
    unfold ConnectorStore.on_object.
    destruct (ConnectorStore.heap s !! r) as [c |]; [| reflexivity].
    destruct (Connector.call _ _ _) as [res cs]. reflexivity.
  - intros r c Hsome Hobj. cbv zeta.
    unfold ConnectorStore.invoke, bind, ConnectorStore.getitem. rewrite Hsome.
    unfold ConnectorStore.on_object. rewrite Hobj.
    cbv [Connector.call Connector.emit modify bind Connector.self Connector.world
         Connector.trace].
    destruct (Connector.invoke args c (ConnectorStore.world s)) as [[[e |] c'] w'];
      reflexivity.
Qed.

(** The scripted connector is invoked by its name. *)
Lemma store_invoke_forwards_witness :
  fst (ConnectorStore.invoke (cls := Scripted) "out1" ["ping"] one_connector) = Ret tt /\
  ConnectorStore.trace
    (snd (ConnectorStore.invoke (cls := Scripted) "out1" ["ping"] one_connector))
  = [EvCall (H_invoke ["ping"])].
Proof.
  destruct (store_invoke_forwards Scripted one_connector "out1" ["ping"]) as [_ Hpresent].
  rewrite (Hpresent 0 (fresh_connector cfg_active)).
  - split; reflexivity.
  - vm_compute. reflexivity.
  - vm_compute. reflexivity.
Defined.

(** ** [start] of a store with one connector *)

(** X20. In a store with one connector, [start()] and [start(name)] with the
    name that connector has (the [name] attribute of the object, not the key
    of the entry) both run [start] of that connector, once: the outcome, the
    object, the world and the trace are those of that [Connector.start]. *)
Theorem store_start_one_connector
    {W : Type} (cls : Connector.Subclass W)
    (s : ConnectorStore.state W) (fuel : nat) (key : string)
    (r : ConnectorStore.ref) (c : Connector.t) (which : option string) :
  ConnectorStore.connectors (ConnectorStore.self s) = {[key := r]} ->
  ConnectorStore.heap s !! r = Some c ->
  which = None \/ which = Some (Connector.name c) ->
  let started :=
    Connector.start fuel
      (Connector.mkstate c (ConnectorStore.world s) (ConnectorStore.trace s)) in
  fst (ConnectorStore.start fuel which s) = fst started /\
  ConnectorStore.heap (snd (ConnectorStore.start fuel which s))
  = <[r := Connector.self (snd started)]> (ConnectorStore.heap s) /\
  ConnectorStore.world (snd (ConnectorStore.start fuel which s))
  = Connector.world (snd started) /\
  ConnectorStore.trace (snd (ConnectorStore.start fuel which s))
  = Connector.trace (snd started).
Proof.
  intros Hconns Hobj Hwhich. cbv zeta.
  enough (Hrun : exists st',
            ConnectorStore.start fuel which s
            = (fst (Connector.start fuel
                      (Connector.mkstate c (ConnectorStore.world s)
                         (ConnectorStore.trace s))),
               ConnectorStore.mkstate st'
                 (<[r := Connector.self
                           (snd (Connector.start fuel
                                   (Connector.mkstate c (ConnectorStore.world s)
                                      (ConnectorStore.trace s))))]>
                    (ConnectorStore.heap s))
                 (Connector.world
                    (snd (Connector.start fuel
                            (Connector.mkstate c (ConnectorStore.world s)
                               (ConnectorStore.trace s)))))
                 (Connector.trace
                    (snd (Connector.start fuel
                            (Connector.mkstate c (ConnectorStore.world s)
                               (ConnectorStore.trace s))))))).
  { destruct Hrun as [st' ->]. repeat split. }
  destruct s as [[ty conns lk] h w tr].
  cbn [ConnectorStore.self ConnectorStore.heap ConnectorStore.world
       ConnectorStore.trace ConnectorStore.connectors] in *. subst conns.
  cbv [ConnectorStore.start ConnectorStore.with_lock with_ ConnectorStore.update
       modify].
  unfold bind at 1, gets at 1. store_cbn.
  rewrite map_to_list_singleton. cbn [fmap list_fmap snd ConnectorStore.start_each].
  unfold bind at 1. erewrite on_object_gets by exact Hobj.
  cbn [Connector.self Connector.name].
  assert (Hskip : match which with
                  | Some n => negb (String.eqb n "") && negb (String.eqb n (Connector.name c))
                  | None => false
                  end = false).
  { destruct Hwhich as [-> | ->]; [reflexivity |].
    rewrite String.eqb_refl. cbn [negb]. apply andb_false_r. }
  rewrite Hskip. unfold bind at 1.
  unfold ConnectorStore.on_object at 1. store_cbn. rewrite Hobj.
  destruct (Connector.start fuel (Connector.mkstate c w tr)) as [[[] | e | why] cs];
    cbn [fst snd]; unfold bind, ret; store_cbn; eexists; reflexivity.
Qed.

(** The store of "out1" is started, by no name and by the name "out1". *)
Lemma store_start_one_connector_witness :
  let s := ConnectorStore.mkstate (ConnectorStore.self one_connector)
             (ConnectorStore.heap one_connector) [Fails_raising socket_error; Connects] [] in
  fst (ConnectorStore.start (cls := Scripted) 4 (Some "out1") s) = Ret tt /\
  fst (ConnectorStore.start (cls := Scripted) 4 None s) = Ret tt.
Proof.
  intros s.
  assert (Hconns : ConnectorStore.connectors (ConnectorStore.self s) = {[ "out1" := 0 ]}).
  { unfold s, one_connector. rewrite create_unfold. cbn. apply insert_empty. }
  assert (Hobj : ConnectorStore.heap s !! 0 = Some (fresh_connector cfg_active)).
  { vm_compute. reflexivity. }
  destruct (store_start_one_connector Scripted s 4 "out1" 0 (fresh_connector cfg_active)
              (Some "out1") Hconns Hobj (or_intror eq_refl)) as (Hby_name & _).
  destruct (store_start_one_connector Scripted s 4 "out1" 0 (fresh_connector cfg_active)
              None Hconns Hobj (or_introl eq_refl)) as (Hall & _).
  split.
  - rewrite Hby_name. vm_compute. reflexivity.
  - rewrite Hall. vm_compute. reflexivity.
Defined.
